(** * Directory monitor with spike alerts, snapshot restore and file decryption

    A shallow embedding of [data_logger_gui_restore_alerts.py] and
    [crypto_utils.py].

    Modelling conventions.
    - Python [str] values are [string]s of 8-bit characters; [bytes] are
      [list Byte.byte].
    - [time.time()] returns a float; the model keeps clock readings as
      integers ([Z]) counting ticks of the clock, with [SPIKE_WINDOW_SEC] and
      [ALERT_COOLDOWN_SEC] in the same unit.  Only the order of readings and
      the differences [t - SPIKE_WINDOW_SEC] and [now - last_alert_ts] are
      used by the code.  Every call of [time.time()] is a separate argument
      of the function that makes it.
    - [os.path] is an interface ([os_path.OsPath]); [posixpath] is one
      implementation of it, used to run the model on concrete paths.
    - The file system is a finite map from paths to contents plus a set of
      directories; [shutil.copy2], [os.makedirs] and [open] are modelled on
      it, with the errors that depend on that state.
    - The CSV audit file is the list of rows appended to it.
    - Tk widgets are left out; every dialog a handler shows is the outcome
      the handler returns. *)

From Stdlib Require Import ZArith Lia List String Ascii Sorted.
From stdpp Require Import base option gmap sets list strings pretty.

Open Scope string_scope.
Open Scope list_scope.

(** ** Python [str] methods *)

Module pystr.

Definition is_upper (c : ascii) : bool :=
  (65 <=? nat_of_ascii c)%nat && (nat_of_ascii c <=? 90)%nat.

Definition lower_char (c : ascii) : ascii :=
  if is_upper c then ascii_of_nat (nat_of_ascii c + 32) else c.

(** [s.lower()] *)
Fixpoint lower (s : string) : string :=
  match s with
  | EmptyString => EmptyString
  | String c s' => String (lower_char c) (lower s')
  end.

(** the characters [str.strip()] removes: TAB, LF, VT, FF, CR, FS, GS, RS,
    US and the space *)
Definition is_space (c : ascii) : bool :=
  let n := nat_of_ascii c in
  ((9 <=? n)%nat && (n <=? 13)%nat) || ((28 <=? n)%nat && (n <=? 32)%nat).

Fixpoint lstrip (s : string) : string :=
  match s with
  | EmptyString => EmptyString
  | String c s' => if is_space c then lstrip s' else s
  end.

Fixpoint rstrip (s : string) : string :=
  match s with
  | EmptyString => EmptyString
  | String c s' =>
      match rstrip s' with
      | EmptyString => if is_space c then EmptyString else String c EmptyString
      | r => String c r
      end
  end.

(** [s.strip()] *)
Definition strip (s : string) : string := rstrip (lstrip s).

(** [s.split(sep)] for a one-character separator *)
Fixpoint split (sep : ascii) (s : string) : list string :=
  match s with
  | EmptyString => [EmptyString]
  | String c s' =>
      if Ascii.eqb c sep then EmptyString :: split sep s'
      else match split sep s' with
           | h :: t => String c h :: t
           | [] => [String c EmptyString]
           end
  end.

(** [s.replace(a, b)] for one-character [a] and [b] *)
Fixpoint replace (a b : ascii) (s : string) : string :=
  match s with
  | EmptyString => EmptyString
  | String c s' => String (if Ascii.eqb c a then b else c) (replace a b s')
  end.

(** [c in s] for a character [c] *)
Fixpoint contains (c : ascii) (s : string) : bool :=
  match s with
  | EmptyString => false
  | String d s' => Ascii.eqb d c || contains c s'
  end.

(** [s.startswith(p)] *)
Definition startswith (s p : string) : bool := String.prefix p s.

(** [s.endswith(suf)] *)
Definition endswith (s suf : string) : bool :=
  let n := String.length s in
  let m := String.length suf in
  (m <=? n)%nat && String.eqb (substring (n - m) m s) suf.

(** [s[:-k]] *)
Definition drop_end (k : nat) (s : string) : string :=
  substring 0 (String.length s - k) s.

(** [sep.join(l)] *)
Definition join (sep : string) (l : list string) : string := String.concat sep l.

(** the character of code 92, the separator of Windows paths *)
Definition backslash : ascii := ascii_of_nat 92.

(** the truth value of a [str] *)
Definition truthy (s : string) : bool := negb (String.eqb s "").

End pystr.

(** ** [os.path] *)

Module os_path.

(** The functions of [os.path] the program calls.  [relpath] is [None] where
    Python raises [ValueError]. *)
Class OsPath := {
  abspath : string → string;
  normpath : string → string;
  normcase : string → string;
  basename : string → string;
  dirname : string → string;
  join : string → string → string;
  relpath : string → string → option string;
  sep : string
}.

End os_path.

(** [posixpath], the implementation of [os.path] on POSIX systems, with a
    fixed current directory. *)
Module posixpath.

Definition sep : ascii := "/"%char.

Definition join (a b : string) : string :=
  if pystr.startswith b "/" then b
  else if negb (pystr.truthy a) || pystr.endswith a "/" then a +:+ b
  else a +:+ "/" +:+ b.

Definition basename (p : string) : string :=
  List.last (pystr.split sep p) "".

Fixpoint rstrip_sep (s : string) : string :=
  match s with
  | EmptyString => EmptyString
  | String c s' =>
      match rstrip_sep s' with
      | EmptyString => if Ascii.eqb c sep then EmptyString else String c EmptyString
      | r => String c r
      end
  end.

Definition dirname (p : string) : string :=
  match pystr.split sep p with
  | [] | [_] => ""
  | comps =>
      let head := pystr.join "/" (removelast comps) +:+ "/" in
      match rstrip_sep head with
      | EmptyString => head
      | h => h
      end
  end.

(** the loop of [normpath] over the components, [acc] being [new_comps]
    reversed *)
Fixpoint norm_comps (initial_slashes : bool) (comps acc : list string) : list string :=
  match comps with
  | [] => rev acc
  | comp :: rest =>
      if String.eqb comp "" || String.eqb comp "." then norm_comps initial_slashes rest acc
      else if negb (String.eqb comp "..")
              || (negb initial_slashes && match acc with [] => true | _ => false end)
              || match acc with top :: _ => String.eqb top ".." | [] => false end
      then norm_comps initial_slashes rest (comp :: acc)
      else match acc with
           | _ :: acc' => norm_comps initial_slashes rest acc'
           | [] => norm_comps initial_slashes rest acc
           end
  end.

Definition normpath (path : string) : string :=
  if negb (pystr.truthy path) then "."
  else
    let initial := pystr.startswith path "/" in
    let two := initial && pystr.startswith path "//" && negb (pystr.startswith path "///") in
    let body := pystr.join "/" (norm_comps initial (pystr.split sep path) []) in
    let res := if two then "//" +:+ body else if initial then "/" +:+ body else body in
    if pystr.truthy res then res else ".".

Definition abspath (cwd path : string) : string :=
  if pystr.startswith path "/" then normpath path else normpath (join cwd path).

Definition nonempty_comps (p : string) : list string :=
  List.filter pystr.truthy (pystr.split sep p).

Fixpoint commonprefix_len (a b : list string) : nat :=
  match a, b with
  | x :: a', y :: b' => if String.eqb x y then S (commonprefix_len a' b') else 0
  | _, _ => 0
  end.

Definition relpath (cwd path start : string) : option string :=
  if negb (pystr.truthy path) then None
  else
    let start_list := nonempty_comps (abspath cwd start) in
    let path_list := nonempty_comps (abspath cwd path) in
    let i := commonprefix_len start_list path_list in
    let rel_list := List.repeat ".." (List.length start_list - i) ++ List.skipn i path_list in
    match rel_list with
    | [] => Some "."
    | _ => Some (pystr.join "/" rel_list)
    end.

Definition instance (cwd : string) : os_path.OsPath :=
  {| os_path.abspath := abspath cwd;
     os_path.normpath := normpath;
     os_path.normcase := fun s => s;
     os_path.basename := basename;
     os_path.dirname := dirname;
     os_path.join := join;
     os_path.relpath := relpath cwd;
     os_path.sep := "/" |}.

End posixpath.


(** ** [datetime] *)

Record datetime := {
  year : nat; month : nat; day : nat;
  hour : nat; minute : nat; second : nat; microsecond : nat
}.

Definition digit (n : nat) : ascii := ascii_of_nat (48 + n mod 10).

(** [n] in decimal, on [width] digits, padded with zeros *)
Fixpoint zpad (width n : nat) : string :=
  match width with
  | O => ""
  | S w => zpad w (n / 10) +:+ String (digit n) ""
  end.

(** [datetime.now(timezone.utc).strftime("%Y%m%dT%H%M%S")] *)
Definition strftime_compact (d : datetime) : string :=
  zpad 4 (year d) +:+ zpad 2 (month d) +:+ zpad 2 (day d) +:+ "T"
  +:+ zpad 2 (hour d) +:+ zpad 2 (minute d) +:+ zpad 2 (second d).

(** [datetime.now(timezone.utc).isoformat()] *)
Definition isoformat (d : datetime) : string :=
  zpad 4 (year d) +:+ "-" +:+ zpad 2 (month d) +:+ "-" +:+ zpad 2 (day d) +:+ "T"
  +:+ zpad 2 (hour d) +:+ ":" +:+ zpad 2 (minute d) +:+ ":" +:+ zpad 2 (second d)
  +:+ (if (microsecond d =? 0)%nat then "" else "." +:+ zpad 6 (microsecond d))
  +:+ "+00:00".

(** ** The file system *)

Abbreviation bytes := (list Byte.byte).

Record FS := {
  files : gmap string bytes;   (* regular files and their contents *)
  dirs : gset string           (* directories *)
}.

Inductive OSError :=
| FileNotFoundError (p : string)
| FileExistsError (p : string)
| IsADirectoryError (p : string)
| NotADirectoryError (p : string)
| SameFileError (src dst : string).

(** [str(e)] *)
Definition str_of_error (e : OSError) : string :=
  match e with
  | FileNotFoundError p => "[Errno 2] No such file or directory: '" +:+ p +:+ "'"
  | FileExistsError p => "[Errno 17] File exists: '" +:+ p +:+ "'"
  | IsADirectoryError p => "[Errno 21] Is a directory: '" +:+ p +:+ "'"
  | NotADirectoryError p => "[Errno 20] Not a directory: '" +:+ p +:+ "'"
  | SameFileError a b => "'" +:+ a +:+ "' and '" +:+ b +:+ "' are the same file"
  end.

(** The exceptions the program meets. *)
Inductive Exception :=
| SystemExit (msg : string)
| ValueError (msg : string)
| OSErr (e : OSError).

Definition isfile (p : string) (fs : FS) : bool := bool_decide (is_Some (files fs !! p)).
Definition isdir (p : string) (fs : FS) : bool := bool_decide (p ∈ dirs fs).
Definition path_exists (p : string) (fs : FS) : bool := isfile p fs || isdir p fs.

Definition write_file (p : string) (data : bytes) (fs : FS) : FS :=
  {| files := <[p := data]> (files fs); dirs := dirs fs |}.

Definition mkdir (p : string) (fs : FS) : FS :=
  {| files := files fs; dirs := {[p]} ∪ dirs fs |}.

(** [os.makedirs(name, exist_ok=True)].  The directory is recorded under its
    own path; the parents made along the way are not recorded one by one.
    It fails on the empty path and where a regular file has the name. *)
Definition makedirs (name : string) (fs : FS) : OSError + FS :=
  if negb (pystr.truthy name) then inl (FileNotFoundError name)
  else if isfile name fs then inl (FileExistsError name)
  else inr (mkdir name fs).

(** ** Module-level configuration *)

(** The globals of the module, as they are once the command line is
    parsed: the three directories after [os.path.abspath]. *)
Class Config := {
  TARGET_DIRECTORY : string;
  BASENAMES : option (gset string);
  RELPATHS : option (gset string);
  SNAPSHOT_DIR : string;
  DUPLICATES_DIR : string;
  SPIKE_WINDOW_SEC : Z;
  SPIKE_THRESHOLD : Z;
  ALERT_COOLDOWN_SEC : Z
}.

(** One row of the CSV audit file, in the order of [CSV_FIELDS]. *)
Record Row := {
  timestamp_iso : string;
  event_type : string;
  event_path : string;
  action_taken : string;
  note : string
}.

(** [csv_log(row)]: the row is appended; the header line is not a row. *)
Definition csv_log (row : Row) (log : list Row) : list Row := log ++ [row].

(** [S and x in S] for a global [S] that is [None] or a set *)
Definition and_in (x : string) (S : option (gset string)) : bool :=
  match S with
  | None => false
  | Some s => negb (bool_decide (s = ∅)) && bool_decide (x ∈ s)
  end.

Definition is_none {A} (o : option A) : bool :=
  match o with None => true | Some _ => false end.

Section Snapshot.
Context `{!os_path.OsPath}.

(** [shutil.copy2(src, dst)]: a directory [dst] receives the file under the
    base name of [src]; two paths are the same file when they are equal.
    A copy that fails does so before it writes: what an interrupted copy
    leaves at its target is outside the model, and nothing below states
    it. *)
Definition copy2 (src dst : string) (fs : FS) : OSError + FS :=
  let target := if isdir dst fs then os_path.join dst (os_path.basename src) else dst in
  if bool_decide (src = target) && path_exists src fs then inl (SameFileError src target)
  else match files fs !! src with
       | None => inl (FileNotFoundError src)
       | Some data =>
           if isdir target fs then inl (IsADirectoryError target)
           else inr (write_file target data fs)
       end.

(** [p] is below the directory [d]. *)
Definition inside (d p : string) : bool := pystr.startswith p (d +:+ os_path.sep).

(** [shutil.rmtree(d)]: the directory goes with all that is below it. *)
Definition rmtree (d : string) (fs : FS) : OSError + FS :=
  if isdir d fs then
    inr {| files := filter (λ kv : string * bytes, inside d kv.1 = false) (files fs);
           dirs := filter (λ p, inside d p = false ∧ p ≠ d) (dirs fs) |}
  else if isfile d fs then inl (NotADirectoryError d)
  else inl (FileNotFoundError d).

(** The parsing of [--files] (lines 29-41): the two globals it sets. *)
Definition parse_token (acc : gset string * gset string) (token : string)
  : gset string * gset string :=
  let t := pystr.replace pystr.backslash "/"%char token in
  if pystr.contains "/"%char t
  then (acc.1, {[ os_path.normcase (os_path.normpath t) ]} ∪ acc.2)
  else ({[ pystr.lower t ]} ∪ acc.1, acc.2).

Definition parse_files (files_arg : string) : option (gset string) * option (gset string) :=
  if pystr.truthy files_arg && pystr.truthy (pystr.strip files_arg) then
    let raw := List.filter pystr.truthy (List.map pystr.strip (pystr.split ","%char files_arg)) in
    let acc := List.fold_left parse_token raw (∅, ∅) in
    (Some acc.1, Some acc.2)
  else (None, None).

Context `{!Config}.

Definition _is_monitored_path (abs_path : string) : bool :=
  if is_none BASENAMES && is_none RELPATHS then true
  else
    let rel := match os_path.relpath abs_path TARGET_DIRECTORY with
               | Some r => r
               | None => os_path.basename abs_path
               end in
    let rel_norm := os_path.normcase (os_path.normpath rel) in
    if and_in rel_norm RELPATHS then true
    else if and_in (pystr.lower (os_path.basename abs_path)) BASENAMES then true
    else false.

Definition snapshot_path_for (abs_path : string) : string :=
  match os_path.relpath abs_path TARGET_DIRECTORY with
  | None => ""
  | Some rel => os_path.join SNAPSHOT_DIR rel
  end.

Definition update_snapshot_for (abs_path : string) (fs : FS) : FS * (bool * string) :=
  let sp := snapshot_path_for abs_path in
  if negb (pystr.truthy sp) then (fs, (false, "no_snapshot_path"))
  else match makedirs (os_path.dirname sp) fs with
       | inl e => (fs, (false, str_of_error e))
       | inr fs1 =>
           match copy2 abs_path sp fs1 with
           | inl e => (fs1, (false, str_of_error e))
           | inr fs2 => (fs2, (true, sp))
           end
       end.

(** The test of lines 73-80. *)
Definition take_file (fname rel_norm : string) : bool :=
  if is_none BASENAMES && is_none RELPATHS then true
  else and_in (pystr.lower fname) BASENAMES || and_in rel_norm RELPATHS.

(** The body of the inner loop, for one [fname] of one [root]; the second
    component collects the sources of the warnings printed.  An exception
    comes with the file system it leaves. *)
Definition snapshot_file (target_dir root fname : string) (st : FS * list string)
  : (Exception * FS) + (FS * list string) :=
  let src := os_path.join root fname in
  match os_path.relpath src target_dir with
  | None => inl (ValueError "no path specified", st.1)
  | Some rel =>
      let rel_norm := os_path.normcase (os_path.normpath rel) in
      if negb (take_file fname rel_norm) then inr st
      else
        let dst := os_path.join SNAPSHOT_DIR rel in
        match makedirs (os_path.dirname dst) st.1 with
        | inl e => inl (OSErr e, st.1)
        | inr fs1 =>
            match copy2 src dst fs1 with
            | inl e => inr (fs1, st.2 ++ [src])
            | inr fs2 => inr (fs2, st.2)
            end
        end
  end.

(** The files of a walk, flattened in the order the two loops visit them. *)
Definition walk_entries (walk : list (string * list string)) : list (string * string) :=
  List.concat (List.map (fun rf => List.map (fun f => (rf.1, f)) rf.2) walk).

Fixpoint sweep (target_dir : string) (entries : list (string * string)) (st : FS * list string)
  : (Exception * FS) + (FS * list string) :=
  match entries with
  | [] => inr st
  | (root, fname) :: rest =>
      match snapshot_file target_dir root fname st with
      | inl e => inl e
      | inr st' => sweep target_dir rest st'
      end
  end.

(** [create_initial_snapshot(target_dir)]; [walk] is what
    [os.walk(target_dir)] yields, a [(root, files)] pair per directory. *)
Definition create_initial_snapshot (target_dir : string) (walk : list (string * list string))
  (fs : FS) : (Exception * FS) + (FS * list string) :=
  if negb (isdir target_dir fs)
  then inl (SystemExit ("Directory does not exist: " +:+ target_dir), fs)
  else sweep target_dir (walk_entries walk) (fs, []).

(** The source of an entry of the walk, and the slot its snapshot goes to. *)
Definition entry_src (e : string * string) : string := os_path.join e.1 e.2.

Definition entry_slot (e : string * string) : string := snapshot_path_for (entry_src e).

End Snapshot.

(** ** The watchdog handler *)

(** One entry of the event queue: the dict [_enqueue] builds. *)
Record Item := {
  ev_time : string;
  ev_type : string;
  src_path : string;
  dest_path : string
}.

Inductive EventKind := EvCreated | EvDeleted | EvModified | EvMoved | EvOther.

(** A watchdog [FileSystemEvent]. *)
Record FileSystemEvent := {
  kind : EventKind;
  event_src_path : string;
  event_dest_path : string;
  is_directory : bool
}.

Section Handler.
Context `{!os_path.OsPath} `{!Config}.

(** [check_path] of [_enqueue]; [dest = None] is the default argument. *)
Definition check_path_of (src : string) (dest : option string) : string :=
  if pystr.truthy src then src else default "" dest.

Definition make_item (now : datetime) (ty src : string) (dest : option string) : Item :=
  {| ev_time := isoformat now;
     ev_type := ty;
     src_path := if pystr.truthy src then os_path.abspath src else "";
     dest_path := match dest with
                  | Some d => if pystr.truthy d then os_path.abspath d else ""
                  | None => ""
                  end |}.

Definition _enqueue (now : datetime) (ty src : string) (dest : option string)
  (q : list Item) : list Item :=
  let check_path := check_path_of src dest in
  if negb (pystr.truthy check_path) then q
  else if negb (_is_monitored_path (os_path.abspath check_path)) then q
  else q ++ [make_item now ty src dest].

Definition on_created (now : datetime) (e : FileSystemEvent) (q : list Item) : list Item :=
  _enqueue now "created" (event_src_path e) None q.

Definition on_deleted (now : datetime) (e : FileSystemEvent) (q : list Item) : list Item :=
  _enqueue now "deleted" (event_src_path e) None q.

Definition on_modified (now : datetime) (e : FileSystemEvent) (q : list Item) : list Item :=
  if is_directory e then q else _enqueue now "modified" (event_src_path e) None q.

Definition on_moved (now : datetime) (e : FileSystemEvent) (q : list Item) : list Item :=
  _enqueue now "moved" (event_src_path e) (Some (event_dest_path e)) q.

(** [FileSystemEventHandler.dispatch]: the method for the kind of the event;
    the kinds the class does not override do nothing. *)
Definition dispatch (now : datetime) (e : FileSystemEvent) (q : list Item) : list Item :=
  match kind e with
  | EvCreated => on_created now e q
  | EvDeleted => on_deleted now e q
  | EvModified => on_modified now e q
  | EvMoved => on_moved now e q
  | EvOther => q
  end.

(** The path [_enqueue] checks for an event of the observer. *)
Definition checked_path (e : FileSystemEvent) : string :=
  match kind e with
  | EvMoved => check_path_of (event_src_path e) (Some (event_dest_path e))
  | _ => check_path_of (event_src_path e) None
  end.

End Handler.

(** ** Spike detection *)

Section Spike.
Context `{!Config}.

(** The [while] loop of [_record_mod_event]. *)
Fixpoint popleft_while (cutoff : Z) (dq : list (Z * string)) : list (Z * string) :=
  match dq with
  | [] => []
  | e :: rest => if (e.1 <? cutoff)%Z then popleft_while cutoff rest else dq
  end.

(** [_record_mod_event(abs_path)], [t] being what [time.time()] returns. *)
Definition _record_mod_event (t : Z) (abs_path : string) (dq : list (Z * string))
  : list (Z * string) :=
  let dq1 := dq ++ [(t, abs_path)] in
  let cutoff := (t - SPIKE_WINDOW_SEC)%Z in
  popleft_while cutoff dq1.

Definition in_window (now : Z) (e : Z * string) : bool :=
  (now - SPIKE_WINDOW_SEC <=? e.1)%Z.

Definition _count_mods (now : Z) (dq : list (Z * string)) : Z :=
  Z.of_nat (List.length (List.filter (in_window now) dq)).

Definition _collect_recent_paths (now : Z) (dq : list (Z * string)) : list string :=
  List.map snd (List.filter (in_window now) dq).

(** [list(dict.fromkeys(l))]: the first occurrence of every key, in order. *)
Fixpoint fromkeys_from (seen l : list string) : list string :=
  match l with
  | [] => []
  | x :: rest =>
      if bool_decide (x ∈ seen) then fromkeys_from seen rest
      else x :: fromkeys_from (x :: seen) rest
  end.

Definition fromkeys (l : list string) : list string := fromkeys_from [] l.

(** [_maybe_trigger_spike()] on the two attributes it uses: the new
    [last_alert_ts] and the paths of the alert it schedules, if any.  The
    three arguments are its three readings of the clock, in order; the
    third is made only when the alert fires. *)
Definition _maybe_trigger_spike (t_count now_ts t_collect : Z)
  (dq : list (Z * string)) (last : Z) : Z * option (list string) :=
  let count := _count_mods t_count dq in
  if (SPIKE_THRESHOLD <=? count)%Z && (ALERT_COOLDOWN_SEC <? now_ts - last)%Z
  then (now_ts, Some (fromkeys (_collect_recent_paths t_collect dq)))
  else (last, None).

(** Recording a sequence of events, oldest first. *)
Definition record_all (evs : list (Z * string)) (dq : list (Z * string)) : list (Z * string) :=
  List.fold_left (fun d e => _record_mod_event e.1 e.2 d) evs dq.

(** A sequence of calls on the detector, and the alerts it fires, each with
    the [now_ts] it fired at. *)
Inductive SpikeCall :=
| RecordMod (t : Z) (abs_path : string)
| MaybeTrigger (t_count now_ts t_collect : Z).

Fixpoint spike_run (calls : list SpikeCall) (dq : list (Z * string)) (last : Z)
  : (list (Z * string) * Z) * list (Z * list string) :=
  match calls with
  | [] => ((dq, last), [])
  | RecordMod t p :: rest => spike_run rest (_record_mod_event t p dq) last
  | MaybeTrigger t1 t2 t3 :: rest =>
      match _maybe_trigger_spike t1 t2 t3 dq last with
      | (last', Some paths) =>
          let r := spike_run rest dq last' in (r.1, (t2, paths) :: r.2)
      | (last', None) => spike_run rest dq last'
      end
  end.

(** Every alert of the list fired more than [ALERT_COOLDOWN_SEC] after the
    one before it, the first one more than that after [last]. *)
Fixpoint cooldown_respected (last : Z) (alerts : list (Z * list string)) : Prop :=
  match alerts with
  | [] => True
  | a :: rest => (ALERT_COOLDOWN_SEC < a.1 - last)%Z ∧ cooldown_respected a.1 rest
  end.

End Spike.

(** ** The monitor and the world it runs in *)

(** The queue, the attributes of [MonitorGUI] the handlers use, the file
    system, the audit file, and the number of [time.time()] calls made. *)
Record State := {
  q : list Item;
  events : list Item;
  selected_index : option nat;
  mod_deque : list (Z * string);
  last_alert_ts : Z;
  scheduled : list (list string);   (* [root.after(100, ...)] alerts not yet shown *)
  disk : FS;
  audit : list Row;
  ticks : nat
}.

Definition set_q (v : list Item) (s : State) : State :=
  {| q := v; events := events s; selected_index := selected_index s;
     mod_deque := mod_deque s; last_alert_ts := last_alert_ts s;
     scheduled := scheduled s; disk := disk s; audit := audit s; ticks := ticks s |}.

Definition set_events (v : list Item) (s : State) : State :=
  {| q := q s; events := v; selected_index := selected_index s;
     mod_deque := mod_deque s; last_alert_ts := last_alert_ts s;
     scheduled := scheduled s; disk := disk s; audit := audit s; ticks := ticks s |}.

Definition set_selected_index (v : option nat) (s : State) : State :=
  {| q := q s; events := events s; selected_index := v;
     mod_deque := mod_deque s; last_alert_ts := last_alert_ts s;
     scheduled := scheduled s; disk := disk s; audit := audit s; ticks := ticks s |}.

Definition set_spike (dq : list (Z * string)) (last : Z) (n : nat) (s : State) : State :=
  {| q := q s; events := events s; selected_index := selected_index s;
     mod_deque := dq; last_alert_ts := last;
     scheduled := scheduled s; disk := disk s; audit := audit s; ticks := n |}.

Definition set_scheduled (v : list (list string)) (s : State) : State :=
  {| q := q s; events := events s; selected_index := selected_index s;
     mod_deque := mod_deque s; last_alert_ts := last_alert_ts s;
     scheduled := v; disk := disk s; audit := audit s; ticks := ticks s |}.

Definition set_disk (v : FS) (s : State) : State :=
  {| q := q s; events := events s; selected_index := selected_index s;
     mod_deque := mod_deque s; last_alert_ts := last_alert_ts s;
     scheduled := scheduled s; disk := v; audit := audit s; ticks := ticks s |}.

Definition set_audit (v : list Row) (s : State) : State :=
  {| q := q s; events := events s; selected_index := selected_index s;
     mod_deque := mod_deque s; last_alert_ts := last_alert_ts s;
     scheduled := scheduled s; disk := disk s; audit := v; ticks := ticks s |}.

(** [MonitorGUI.__init__] on an empty queue. *)
Definition init_state (fs : FS) (log : list Row) : State :=
  {| q := []; events := []; selected_index := None;
     mod_deque := []; last_alert_ts := 0;
     scheduled := []; disk := fs; audit := log; ticks := 0 |}.

(** What a button handler reports to the user. *)
Inductive Outcome :=
| SelectEvent                      (* showinfo "Select event" *)
| IndexError                       (* [self.events[self.selected_index]] out of range *)
| Ignored                          (* mark_ignore, no snapshot update attempted *)
| IgnoredSnapshotUpdated (sp : string)
| IgnoredSnapshotUpdateFailed (info : string)
| NoSourcePath                     (* showwarning "No source path" *)
| SnapshotMissing (expected : string)   (* showerror "Snapshot missing" *)
| DestinationDirError (e : OSError)     (* showerror "Error" *)
| RestoreFailed (e : OSError)           (* showerror "Restore failed" *)
| PartialSuccess (e : OSError)          (* showwarning "Partial success" *)
| Restored (dup_path : string)          (* showinfo "Restored" *)
| Declined                              (* askyesno answered "No" *)
| Refreshed (warnings : list string)    (* "Snapshot refreshed." *)
| RefreshFailed (e : Exception)         (* showerror "Snapshot refresh failed" *)
| Raised (e : Exception).               (* an exception no handler catches *)

Definition tracked_types : list string := ["modified"; "created"; "moved"].

Section Monitor.
Context `{!os_path.OsPath} `{!Config}.

(** The clock: [clk n] is what the call number [n] of [time.time()] returns. *)
Variable clk : nat → Z.

(** [_maybe_trigger_spike] on the state, reading the clock. *)
Definition maybe_trigger_spike (s : State) : State :=
  let n := ticks s in
  match _maybe_trigger_spike (clk n) (clk (S n)) (clk (S (S n))) (mod_deque s) (last_alert_ts s) with
  | (last', Some recent_paths) =>
      set_scheduled (scheduled s ++ [recent_paths]) (set_spike (mod_deque s) last' (S (S (S n))) s)
  | (last', None) => set_spike (mod_deque s) last' (S (S n)) s
  end.

(** The body of the loop of [poll_queue] for one event taken from the queue. *)
Definition poll_item (s : State) (ev : Item) : State :=
  let s1 := set_events (ev :: events s) s in
  if bool_decide (ev_type ev ∈ tracked_types) then
    let track_path := if pystr.truthy (src_path ev) then src_path ev else dest_path ev in
    if pystr.truthy track_path
    then set_spike (_record_mod_event (clk (ticks s1)) track_path (mod_deque s1))
                   (last_alert_ts s1) (S (ticks s1)) s1
    else s1
  else s1.

(** [poll_queue]: the queue is emptied, oldest entry first. *)
Definition poll_queue (s : State) : State :=
  let items := q s in
  let s1 := List.fold_left poll_item items (set_q [] s) in
  match items with
  | [] => s1
  | _ :: _ => maybe_trigger_spike s1
  end.

(** [on_select], [sel] being [listbox.curselection()]. *)
Definition on_select (sel : list nat) (s : State) : State :=
  match sel with
  | [] => s
  | idx :: _ =>
      match events s !! idx with
      | None => s
      | Some _ => set_selected_index (Some idx) s
      end
  end.

Definition mark_ignore (now : datetime) (s : State) : State * Outcome :=
  match selected_index s with
  | None => (s, SelectEvent)
  | Some i =>
      match events s !! i with
      | None => (s, IndexError)
      | Some ev =>
          let s1 := set_audit (csv_log
                      {| timestamp_iso := isoformat now;
                         event_type := ev_type ev;
                         event_path := src_path ev;
                         action_taken := "ignored_by_user";
                         note := "user indicated they performed the action" |}
                      (audit s)) s in
          if pystr.truthy (src_path ev) && isfile (src_path ev) (disk s1) then
            match update_snapshot_for (src_path ev) (disk s1) with
            | (fs', (true, info)) => (set_disk fs' s1, IgnoredSnapshotUpdated info)
            | (fs', (false, info)) => (set_disk fs' s1, IgnoredSnapshotUpdateFailed info)
            end
          else (s1, Ignored)
      end
  end.

(** [restore_original]; [ts_now] is the time read for the name of the
    duplicate, [now] the one read for the audit row. *)
Definition restore_original (ts_now now : datetime) (s : State) : State * Outcome :=
  match selected_index s with
  | None => (s, SelectEvent)
  | Some i =>
      match events s !! i with
      | None => (s, IndexError)
      | Some ev =>
          let src := src_path ev in
          let row action n :=
            {| timestamp_iso := isoformat now; event_type := ev_type ev;
               event_path := src; action_taken := action; note := n |} in
          if negb (pystr.truthy src) then (s, NoSourcePath)
          else
            let snapshot_path := snapshot_path_for src in
            if negb (pystr.truthy snapshot_path) || negb (isfile snapshot_path (disk s)) then
              (set_audit (csv_log (row "restore_failed_no_snapshot" snapshot_path) (audit s)) s,
               SnapshotMissing snapshot_path)
            else
              match makedirs (os_path.dirname src) (disk s) with
              | inl e => (s, DestinationDirError e)
              | inr fs1 =>
                  match copy2 snapshot_path src fs1 with
                  | inl e =>
                      (set_audit (csv_log (row "restore_failed_copy_error" (str_of_error e)) (audit s))
                         (set_disk fs1 s),
                       RestoreFailed e)
                  | inr fs2 =>
                      let base := os_path.basename src in
                      let ts := strftime_compact ts_now in
                      let dup_name := base +:+ "." +:+ ts +:+ ".orig" in
                      match os_path.relpath src TARGET_DIRECTORY with
                      | None => (set_disk fs2 s, Raised (ValueError "no path specified"))
                      | Some rel =>
                          let dup_subdir := os_path.join DUPLICATES_DIR (os_path.dirname rel) in
                          match makedirs dup_subdir fs2 with
                          | inl e => (set_disk fs2 s, Raised (OSErr e))
                          | inr fs3 =>
                              let dup_path := os_path.join dup_subdir dup_name in
                              match copy2 snapshot_path dup_path fs3 with
                              | inl e =>
                                  (set_audit (csv_log (row "restore_but_duplicate_failed" (str_of_error e))
                                                (audit s)) (set_disk fs3 s),
                                   PartialSuccess e)
                              | inr fs4 =>
                                  (set_audit (csv_log (row "restored_and_duplicated" dup_path) (audit s))
                                     (set_disk fs4 s),
                                   Restored dup_path)
                              end
                          end
                      end
                  end
              end
      end
  end.

(** [refresh_snapshot]; [yes] is the answer to the confirmation dialog and
    [walk] what [os.walk] yields.  [SystemExit] is not an [Exception] for
    the [except] clause: it leaves the handler. *)
Definition refresh_snapshot (yes : bool) (walk : list (string * list string)) (s : State)
  : State * Outcome :=
  if negb yes then (s, Declined)
  else
    let cleared := if path_exists SNAPSHOT_DIR (disk s) then rmtree SNAPSHOT_DIR (disk s)
                   else inr (disk s) in
    match cleared with
    | inl e => (s, RefreshFailed (OSErr e))
    | inr fs1 =>
        match makedirs SNAPSHOT_DIR fs1 with
        | inl e => (set_disk fs1 s, RefreshFailed (OSErr e))
        | inr fs2 =>
            match create_initial_snapshot TARGET_DIRECTORY walk fs2 with
            | inl (SystemExit msg, fs3) => (set_disk fs3 s, Raised (SystemExit msg))
            | inl (e, fs3) => (set_disk fs3 s, RefreshFailed e)
            | inr (fs3, warnings) => (set_disk fs3 s, Refreshed warnings)
            end
        end
    end.

(** The loop of the "Yes" answer of [_show_spike_alert], for one path. *)
Definition confirm_path (now : datetime) (s : State) (p : string) : State :=
  if isfile p (disk s) then
    match update_snapshot_for p (disk s) with
    | (fs', (true, info)) =>
        set_audit (csv_log
          {| timestamp_iso := isoformat now; event_type := "snapshot_updated_by_user";
             event_path := p; action_taken := "snapshot_updated"; note := info |}
          (audit s)) (set_disk fs' s)
    | (fs', (false, _)) => set_disk fs' s
    end
  else s.

(** The index [_show_spike_alert] preselects. *)
Fixpoint idx_to_select (recent_paths : list string) (evs : list Item) (idx : nat) : option nat :=
  match evs with
  | [] => None
  | ev :: rest =>
      if bool_decide (src_path ev ∈ recent_paths) || bool_decide (dest_path ev ∈ recent_paths)
      then Some idx
      else idx_to_select recent_paths rest (S idx)
  end.

(** [_show_spike_alert(recent_paths)]; [yes] holds when the user pressed
    "Yes", and not when "No" was pressed or the popup was closed. *)
Definition _show_spike_alert (now : datetime) (yes : bool) (recent_paths : list string)
  (s : State) : State :=
  if yes then List.fold_left (confirm_path now) recent_paths s
  else
    let s1 := set_audit (csv_log
      {| timestamp_iso := isoformat now; event_type := "user_reported_not_me";
         event_path := pystr.join ";" recent_paths; action_taken := "alert_shown";
         note := "count=" +:+ pretty (List.length recent_paths) |}
      (audit s)) s in
    match idx_to_select recent_paths (events s1) 0 with
    | Some idx => on_select [idx] s1
    | None => s1
    end.

(** What happens to the program, one thing at a time. *)
Inductive Input :=
| Watch (now : datetime) (e : FileSystemEvent)   (* the observer calls the handler *)
| PollQueue                                      (* [root.after(200, self.poll_queue)] fires *)
| ShowSpikeAlert (now : datetime) (yes : bool)   (* the oldest scheduled alert is shown and answered *)
| ListboxSelect (sel : list nat)
| ClickIgnore (now : datetime)
| ClickRestore (ts_now now : datetime)
| ClickRefresh (yes : bool) (walk : list (string * list string)).

Definition step (s : State) (i : Input) : State :=
  match i with
  | Watch now e => set_q (dispatch now e (q s)) s
  | PollQueue => poll_queue s
  | ShowSpikeAlert now yes =>
      match scheduled s with
      | [] => s
      | recent_paths :: rest => _show_spike_alert now yes recent_paths (set_scheduled rest s)
      end
  | ListboxSelect sel => on_select sel s
  | ClickIgnore now => (mark_ignore now s).1
  | ClickRestore ts_now now => (restore_original ts_now now s).1
  | ClickRefresh yes walk => (refresh_snapshot yes walk s).1
  end.

Definition run (s : State) (inputs : list Input) : State := List.fold_left step inputs s.

(** The path under which an entry of the queue is tracked and shown. *)
Definition track_path_of (ev : Item) : string :=
  if pystr.truthy (src_path ev) then src_path ev else dest_path ev.

(** Everything the monitor holds is about paths of the scope. *)
Definition in_scope (p : string) : Prop := _is_monitored_path p = true.

Definition in_scope_row (r : Row) : Prop :=
  event_path r = "" ∨ in_scope (event_path r)
  ∨ ∃ paths, Forall in_scope paths ∧ event_path r = pystr.join ";" paths.

Record scope_inv (s : State) : Prop := {
  inv_q : Forall (λ ev, in_scope (track_path_of ev)) (q s);
  inv_events : Forall (λ ev, in_scope (track_path_of ev)) (events s);
  inv_deque : Forall (λ e, in_scope e.2) (mod_deque s);
  inv_scheduled : Forall (Forall in_scope) (scheduled s);
  inv_audit : Forall in_scope_row (audit s)
}.

End Monitor.

(** ** [crypto_utils.py] *)

Module crypto_utils.

Definition SALT_SIZE : nat := 16.

Inductive DecryptError :=
| NoSuchFile (p : string)          (* [open(enc_path, 'rb')] fails *)
| TooShort                         (* ValueError("File too short or missing salt + ciphertext") *)
| InvalidToken                     (* raised by [Fernet.decrypt] *)
| OutputExists (out_path : string) (* FileExistsError *)
| CannotWrite (out_path : string). (* [open(out_path, 'wb')] fails *)

Section Crypto.

(** PBKDF2-HMAC-SHA256 followed by URL-safe base64, and Fernet: the
    functions of the [cryptography] package, [None] where [Fernet.decrypt]
    raises [InvalidToken]; [fernet_encrypt] also takes the random bytes and
    the time Fernet draws. *)
Variable derive_fernet_key : string → bytes → bytes.
Variable fernet_decrypt : bytes → bytes → option bytes.
Variable fernet_encrypt : bytes → bytes → bytes → bytes.

Definition out_path_of (enc_path : string) : string :=
  if pystr.endswith enc_path ".enc" then pystr.drop_end 4 enc_path
  else enc_path +:+ ".dec".

(** [encrypt_file(path, password)]; [salt] is what [os.urandom(SALT_SIZE)]
    returns and [entropy] what Fernet draws. *)
Definition encrypt_file (salt entropy : bytes) (path password : string) (fs : FS)
  : (DecryptError + string) * FS :=
  match files fs !! path with
  | None => (inl (NoSuchFile path), fs)
  | Some data =>
      let key := derive_fernet_key password salt in
      let token := fernet_encrypt key entropy data in
      let out_path := path +:+ ".enc" in
      if isdir out_path fs then (inl (CannotWrite out_path), fs)
      else (inr out_path, write_file out_path (salt ++ token) fs)
  end.

Definition decrypt_file (enc_path password : string) (fs : FS)
  : (DecryptError + string) * FS :=
  match files fs !! enc_path with
  | None => (inl (NoSuchFile enc_path), fs)
  | Some content =>
      if (List.length content <=? SALT_SIZE)%nat then (inl TooShort, fs)
      else
        let salt := List.firstn SALT_SIZE content in
        let token := List.skipn SALT_SIZE content in
        let key := derive_fernet_key password salt in
        match fernet_decrypt key token with
        | None => (inl InvalidToken, fs)
        | Some data =>
            let out_path := out_path_of enc_path in
            if path_exists out_path fs then (inl (OutputExists out_path), fs)
            else if negb (pystr.truthy out_path) then (inl (CannotWrite out_path), fs)
            else (inr out_path, write_file out_path data fs)
        end
  end.

End Crypto.

End crypto_utils.

(** The part of the state only the watcher and the processing loop write. *)
Definition loop_part (s : State) :=
  (q s, events s, mod_deque s, last_alert_ts s, scheduled s, ticks s).

(** ** The audit file on disk *)

Definition CSV_FIELDS : list string :=
  ["timestamp_iso"; "event_type"; "event_path"; "action_taken"; "note"].

(** The fields of a row, in the order [csv.DictWriter] writes them. *)
Definition row_fields (r : Row) : list string :=
  [timestamp_iso r; event_type r; event_path r; action_taken r; note r].

(** [csv_log(row)] on the file itself: [None] while [LOG_FILE] does not
    exist, else its lines, each the list of its fields. *)
Definition csv_log_file (f : option (list (list string))) (row : Row)
  : option (list (list string)) :=
  match f with
  | None => Some [CSV_FIELDS; row_fields row]
  | Some lines => Some (lines ++ [row_fields row])
  end.

(** ** [decrypt_gui.py] *)

Module decrypt_gui.

(** What [decrypt_action] shows. *)
Inductive Shown :=
| InvalidFile          (* showerror "Please select a valid encrypted file." *)
| NoPassword           (* showerror "Please provide a password." *)
| Cancelled            (* askokcancel answered "Cancel" *)
| DecryptionFailed     (* showerror "Decryption failed" *)
| DecryptedMessage.    (* show_decrypted_message *)

Section Decryptor.

Variable derive_fernet_key : string → bytes → bytes.
Variable fernet_decrypt : bytes → bytes → option bytes.

(** [decrypt_action]; [path] and [pw] are the two [StringVar]s and [ok] the
    answer to the confirmation dialog.  Inside the [try] block only the
    reading of the file and Fernet can fail here: a failing write-back is
    outside the model, and nothing below states what it leaves. *)
Definition decrypt_action (path pw : string) (ok : bool) (fs : FS) : FS * Shown :=
  if negb (isfile path fs) then (fs, InvalidFile)
  else if negb (pystr.truthy pw) then (fs, NoPassword)
  else if negb ok then (fs, Cancelled)
  else
    match files fs !! path with
    | None => (fs, DecryptionFailed)
    | Some content =>
        let salt := List.firstn crypto_utils.SALT_SIZE content in
        let token := List.skipn crypto_utils.SALT_SIZE content in
        let key := derive_fernet_key pw salt in
        match fernet_decrypt key token with
        | None => (fs, DecryptionFailed)
        | Some decrypted => (write_file path decrypted fs, DecryptedMessage)
        end
    end.

End Decryptor.

End decrypt_gui.

(** ** The scope test of the sweep *)

Section Taken.
Context `{!os_path.OsPath} `{!Config}.

(** The entry of the walk passes the test of lines 73-80. *)
Definition taken (e : string * string) : Prop :=
  ∃ rel, os_path.relpath (entry_src e) TARGET_DIRECTORY = Some rel
         ∧ take_file e.2 (os_path.normcase (os_path.normpath rel)) = true.

End Taken.

(** ** A concrete configuration, to run the model *)

Module Example.

Definition os : os_path.OsPath := posixpath.instance "/home/user".

(** The defaults of the command line, with second-long ticks. *)
Definition cfg (b r : option (gset string)) : Config :=
  {| TARGET_DIRECTORY := "/mon";
     BASENAMES := b;
     RELPATHS := r;
     SNAPSHOT_DIR := "/home/user/snapshots";
     DUPLICATES_DIR := "/home/user/duplicates";
     SPIKE_WINDOW_SEC := 5;
     SPIKE_THRESHOLD := 8;
     ALERT_COOLDOWN_SEC := 60 |}.

Definition cfg_all : Config := cfg None None.

(** [--files "notes.txt, docs/a.txt"] *)
Definition cfg_filtered : Config :=
  let f := @parse_files os "notes.txt, docs/a.txt" in cfg f.1 f.2.

(** A clock reading of the year 2026, in seconds since the epoch, and a
    clock that advances by one second every four readings. *)
Definition t0 : Z := 1793700000.

Definition clk (n : nat) : Z := (t0 + Z.of_nat (n / 4))%Z.

Definition now : datetime :=
  {| year := 2026; month := 11; day := 3; hour := 10; minute := 20; second := 30;
     microsecond := 0 |}.

Definition later : datetime :=
  {| year := 2026; month := 11; day := 3; hour := 10; minute := 21; second := 5;
     microsecond := 250 |}.

(** Eight modifications of eight files in the seconds 0 to 4. *)
Definition burst (t : Z) (tag : string) : list SpikeCall :=
  [ RecordMod t ("/mon/" +:+ tag +:+ "1"); RecordMod t ("/mon/" +:+ tag +:+ "2");
    RecordMod (t + 1) ("/mon/" +:+ tag +:+ "3"); RecordMod (t + 1) ("/mon/" +:+ tag +:+ "4");
    RecordMod (t + 2) ("/mon/" +:+ tag +:+ "5"); RecordMod (t + 3) ("/mon/" +:+ tag +:+ "6");
    RecordMod (t + 3) ("/mon/" +:+ tag +:+ "7"); RecordMod (t + 4) ("/mon/" +:+ tag +:+ "8");
    MaybeTrigger (t + 4) (t + 4) (t + 4) ].

Definition burst_events (t : Z) (tag : string) : list (Z * string) :=
  [ (t, "/mon/" +:+ tag +:+ "1"); (t, "/mon/" +:+ tag +:+ "2");
    (t + 1, "/mon/" +:+ tag +:+ "3"); (t + 1, "/mon/" +:+ tag +:+ "4");
    (t + 2, "/mon/" +:+ tag +:+ "5"); (t + 3, "/mon/" +:+ tag +:+ "6");
    (t + 3, "/mon/" +:+ tag +:+ "7"); (t + 4, "/mon/" +:+ tag +:+ "8") ]%Z.

Definition text (s : string) : list Byte.byte := list_byte_of_string s.

(** A monitored tree of three files, and a snapshot of [a.txt] taken before
    it was changed. *)
Definition tree : FS :=
  {| files := <["/mon/a.txt" := text "changed"]>
              (<["/mon/notes.txt" := text "notes"]>
              (<["/mon/docs/a.txt" := text "doc"]> ∅));
     dirs := {["/mon"; "/mon/docs"; "/home/user/snapshots"; "/home/user/duplicates"]} |}.

Definition tree_with_snapshot : FS :=
  write_file "/home/user/snapshots/a.txt" (text "original") tree.

Definition walk : list (string * list string) :=
  [("/mon", ["a.txt"; "notes.txt"]); ("/mon/docs", ["a.txt"])].

(** The file system and the warnings after the initial snapshot of [tree]. *)
Definition swept : FS * list string :=
  match @create_initial_snapshot os cfg_all "/mon" walk tree with
  | inr r => r
  | inl _ => (tree, [])
  end.

Definition modified (p : string) : FileSystemEvent :=
  {| kind := EvModified; event_src_path := p; event_dest_path := ""; is_directory := false |}.


(** The monitor after [a.txt] was modified, the queue polled and the event
    selected in the list. *)
Definition selected (fs : FS) : State :=
  @run os cfg_all clk (init_state fs [])
    [Watch now (modified "/mon/a.txt"); PollQueue; ListboxSelect [0%nat]].

(** Eight files modified in a row, then the queue polled. *)
Definition mass_modification : list Input :=
  List.map (λ n, Watch now (modified ("/mon/f" +:+ pretty n))) (seq 1 8) ++ [PollQueue].

Definition item_a : Item :=
  {| ev_time := "2026-11-03T10:20:30+00:00"; ev_type := "modified";
     src_path := "/mon/a.txt"; dest_path := "" |}.

Definition item_deleted : Item :=
  {| ev_time := "2026-11-03T10:20:30+00:00"; ev_type := "deleted";
     src_path := "/mon/a.txt"; dest_path := "" |}.

(** A stand-in for Fernet, to run [decrypt_file]: the token is the key
    followed by the data. *)
Definition toy_derive (password : string) (salt : list Byte.byte) : list Byte.byte :=
  text password.

Fixpoint strip_prefix (p l : list Byte.byte) : option (list Byte.byte) :=
  match p, l with
  | [], _ => Some l
  | x :: p', y :: l' => if Byte.eqb x y then strip_prefix p' l' else None
  | _ :: _, [] => None
  end.

Definition toy_decrypt (key token : list Byte.byte) : option (list Byte.byte) :=
  strip_prefix key token.

Definition vault : FS :=
  {| files := <["/v/short.enc" := text "0123456789abcdef"]>
              (<["/v/doc.txt.enc" := text "0123456789abcdefpwhello"]> ∅);
     dirs := {["/v"]} |}.

End Example.

(** ** More concrete inputs *)

Module Scenario.

(** The monitor with [a.txt] selected and a modification of [notes.txt]
    waiting in the queue. *)
Definition selected_with_pending (fs : FS) : State :=
  @step Example.os Example.cfg_all Example.clk (Example.selected fs)
    (Watch Example.later (Example.modified "/mon/notes.txt")).

Definition item_notes : Item :=
  {| ev_time := "2026-11-03T10:21:05.000250+00:00"; ev_type := "modified";
     src_path := "/mon/notes.txt"; dest_path := "" |}.

(** The monitor after [docs/a.txt] was modified, the queue polled and the
    event selected. *)
Definition selected_doc (fs : FS) : State :=
  @run Example.os Example.cfg_all Example.clk (init_state fs [])
    [Watch Example.now (Example.modified "/mon/docs/a.txt"); PollQueue; ListboxSelect [0%nat]].

Definition item_doc : Item :=
  {| ev_time := "2026-11-03T10:20:30+00:00"; ev_type := "modified";
     src_path := "/mon/docs/a.txt"; dest_path := "" |}.

(** A snapshot of [docs/a.txt], and a regular file where the directory of
    its duplicates should be. *)
Definition tree_blocked : FS :=
  write_file "/home/user/duplicates/docs" (Example.text "not a directory")
    (write_file "/home/user/snapshots/docs/a.txt" (Example.text "first draft") Example.tree).

(** A snapshot area that still holds the snapshot of a file long gone. *)
Definition tree_stale : FS :=
  write_file "/home/user/snapshots/old.txt" (Example.text "gone") Example.tree_with_snapshot.

(** The initial snapshot of [tree] under [--files "notes.txt, docs/a.txt"]. *)
Definition swept_filtered : FS * list string :=
  match @create_initial_snapshot Example.os Example.cfg_filtered "/mon" Example.walk
          Example.tree with
  | inr r => r
  | inl _ => (Example.tree, [])
  end.

Definition moved (src dest : string) : FileSystemEvent :=
  {| kind := EvMoved; event_src_path := src; event_dest_path := dest; is_directory := false |}.

(** A stand-in for Fernet with an encryption side: the token is the version
    byte followed by the key and the data. *)
Definition toy_encrypt (key entropy data : list Byte.byte) : list Byte.byte :=
  Byte.x80 :: key ++ data.

Definition toy_decrypt (key token : list Byte.byte) : option (list Byte.byte) :=
  match token with
  | Byte.x80 :: rest => Example.strip_prefix key rest
  | _ => None
  end.

Definition salt : list Byte.byte := Example.text "0123456789abcdef".

Definition plain : FS :=
  {| files := {["/v/doc.txt" := Example.text "hello"]}; dirs := {["/v"]} |}.

(** [plain] after [encrypt_file], and the same with the original removed. *)
Definition encrypted : FS :=
  (crypto_utils.encrypt_file Example.toy_derive toy_encrypt salt [] "/v/doc.txt" "pw" plain).2.

Definition sealed : FS :=
  {| files := delete "/v/doc.txt" (files encrypted); dirs := dirs encrypted |}.

(** Eight modifications of four files, some of them written several
    times, in the seconds 0 to 4. *)
Definition rewrites : list (Z * string) :=
  [ (Example.t0, "/mon/a"); (Example.t0, "/mon/b"); (Example.t0 + 1, "/mon/a");
    (Example.t0 + 1, "/mon/c"); (Example.t0 + 2, "/mon/b"); (Example.t0 + 3, "/mon/a");
    (Example.t0 + 3, "/mon/d"); (Example.t0 + 4, "/mon/c") ]%Z.

(** ** Inputs on which the monitor departs from the plain reading *)











Definition tree_stale_dir : FS := mkdir "/home/user/snapshots/notes.txt" Example.tree.

(** [--snapshot-dir snapshots] given with [--dir .]: the snapshot area lies
    inside the monitored tree and holds a file of an earlier run. *)
Definition cfg_inside : Config :=
  {| TARGET_DIRECTORY := "/mon";
     BASENAMES := None;
     RELPATHS := None;
     SNAPSHOT_DIR := "/mon/snapshots";
     DUPLICATES_DIR := "/mon/duplicates";
     SPIKE_WINDOW_SEC := 5;
     SPIKE_THRESHOLD := 8;
     ALERT_COOLDOWN_SEC := 60 |}.

Definition tree_inside : FS :=
  {| files := <["/mon/a.txt" := Example.text "new"]>
              (<["/mon/snapshots/a.txt" := Example.text "old"]> ∅);
     dirs := {["/mon"; "/mon/snapshots"]} |}.

Definition walk_inside : list (string * list string) :=
  [("/mon", ["a.txt"]); ("/mon/snapshots", ["a.txt"])].

(** Two recordings, then a reading of a clock that was set back. *)
Definition stepped_back : list (Z * string) := [(1000%Z, "/mon/a"); (1006%Z, "/mon/b")].

End Scenario.

(** * Properties *)

(** ** The [str] and [posixpath] models on examples *)

Example posix_join : posixpath.join "/snap" "a/b.txt" = "/snap/a/b.txt".
Proof. reflexivity. Qed.
Example posix_basename : posixpath.basename "/mon/a/b.txt" = "b.txt".
Proof. reflexivity. Qed.
Example posix_dirname : posixpath.dirname "/mon/a/b.txt" = "/mon/a".
Proof. reflexivity. Qed.
Example posix_dirname_rel : posixpath.dirname "b.txt" = "".
Proof. reflexivity. Qed.
Example posix_dirname_root : posixpath.dirname "/b.txt" = "/".
Proof. reflexivity. Qed.
Example posix_normpath : posixpath.normpath "./a//b/../c/" = "a/c".
Proof. reflexivity. Qed.
Example posix_normpath_up : posixpath.normpath "../../x" = "../../x".
Proof. reflexivity. Qed.
Example posix_normpath_root : posixpath.normpath "/../x" = "/x".
Proof. reflexivity. Qed.
Example posix_relpath : posixpath.relpath "/" "/mon/a/b.txt" "/mon" = Some "a/b.txt".
Proof. reflexivity. Qed.
Example posix_relpath_out : posixpath.relpath "/" "/etc/passwd" "/mon/x" = Some "../../etc/passwd".
Proof. reflexivity. Qed.
Example posix_relpath_same : posixpath.relpath "/" "/mon" "/mon" = Some ".".
Proof. reflexivity. Qed.
Example posix_relpath_empty : posixpath.relpath "/" "" "/mon" = None.
Proof. reflexivity. Qed.
Example py_split : pystr.split ","%char "a, b,,c" = ["a"; " b"; ""; "c"].
Proof. reflexivity. Qed.
Example py_strip : pystr.strip "  a b  " = "a b".
Proof. reflexivity. Qed.
Example py_endswith : pystr.endswith "x.txt.enc" ".enc" = true.
Proof. reflexivity. Qed.
Example py_drop_end : pystr.drop_end 4 "x.txt.enc" = "x.txt".
Proof. reflexivity. Qed.

Lemma truthy_true (s : string) : pystr.truthy s = true ↔ s ≠ "".
Proof.
  unfold pystr.truthy. destruct (String.eqb_spec s ""); simpl; split; congruence.
Qed.

Lemma truthy_false (s : string) : pystr.truthy s = false ↔ s = "".
Proof.
  unfold pystr.truthy. destruct (String.eqb_spec s ""); simpl; split; congruence.
Qed.

(** ** Spike detection *)

Section SpikeFacts.
Context `{!Config}.

Lemma popleft_while_idem (cutoff : Z) (dq : list (Z * string)) :
  popleft_while cutoff (popleft_while cutoff dq) = popleft_while cutoff dq.
Proof.
  induction dq as [|e rest IH]; simpl; [done|].
  destruct (e.1 <? cutoff)%Z eqn:E; [done|].
  simpl. by rewrite E.
Qed.

Lemma popleft_while_suffix (cutoff : Z) (dq : list (Z * string)) :
  ∃ dropped, dq = dropped ++ popleft_while cutoff dq
             ∧ Forall (λ e, e.1 < cutoff)%Z dropped.
Proof.
  induction dq as [|e rest IH]; simpl.
  - by exists [].
  - destruct (e.1 <? cutoff)%Z eqn:E.
    + destruct IH as (d & Hd & Hall). exists (e :: d). split.
      * simpl. by rewrite <- Hd.
      * constructor; [lia | done].
    + by exists [].
Qed.

Lemma count_mods_app (now : Z) (a b : list (Z * string)) :
  _count_mods now (a ++ b) = (_count_mods now a + _count_mods now b)%Z.
Proof.
  unfold _count_mods. rewrite List.filter_app, List.length_app. lia.
Qed.

Lemma count_mods_stale (now : Z) (d : list (Z * string)) :
  Forall (λ e, e.1 < now - SPIKE_WINDOW_SEC)%Z d → _count_mods now d = 0%Z.
Proof.
  unfold _count_mods. induction 1 as [|e d He _ IH]; simpl; [done|].
  unfold in_window at 1. destruct (now - SPIKE_WINDOW_SEC <=? e.1)%Z eqn:E; [lia | done].
Qed.

(** Entries popped at a cutoff not later than [now - SPIKE_WINDOW_SEC] were
    not counted at [now] anyway. *)
Lemma count_mods_popleft (now cutoff : Z) (dq : list (Z * string)) :
  (cutoff ≤ now - SPIKE_WINDOW_SEC)%Z →
  _count_mods now (popleft_while cutoff dq) = _count_mods now dq.
Proof.
  intros Hc. destruct (popleft_while_suffix cutoff dq) as (d & Hd & Hall).
  rewrite Hd at 2. rewrite count_mods_app, (count_mods_stale now d); [lia|].
  eapply Forall_impl; [exact Hall|]. simpl. intros; lia.
Qed.

Lemma count_mods_record (now t : Z) (p : string) (dq : list (Z * string)) :
  (t ≤ now)%Z →
  _count_mods now (_record_mod_event t p dq)
  = (_count_mods now dq + _count_mods now [(t, p)])%Z.
Proof.
  intros Ht. unfold _record_mod_event.
  rewrite count_mods_popleft by lia. apply count_mods_app.
Qed.

Lemma count_mods_record_all (now : Z) (evs dq : list (Z * string)) :
  Forall (λ e, e.1 ≤ now)%Z evs →
  _count_mods now (record_all evs dq) = (_count_mods now dq + _count_mods now evs)%Z.
Proof.
  intros Hall. revert dq. induction Hall as [|e evs He _ IH]; intros dq; simpl.
  - unfold _count_mods at 3. simpl. lia.
  - unfold record_all in *. simpl. rewrite IH.
    rewrite count_mods_record by done.
    change (e :: evs) with ([e] ++ evs). rewrite (count_mods_app now [e] evs).
    destruct e as [t p]. simpl. lia.
Qed.

(** C5. Sliding-window counting.  After any sequence [evs] of events was
    recorded, [_count_mods], called when the clock reads [now] (not earlier
    than the readings the events were recorded at), returns the number of
    recorded events whose timestamp is at least [now - SPIKE_WINDOW_SEC],
    whether or not an event was pruned in between.  Pruning is idempotent:
    running the pruning loop a second time with the same cutoff changes
    neither the retained entries nor the count. *)
Theorem sliding_window_count (evs : list (Z * string)) (now : Z) :
  Forall (λ e, e.1 ≤ now)%Z evs →
  _count_mods now (record_all evs [])
  = Z.of_nat (List.length (List.filter (λ e, now - SPIKE_WINDOW_SEC <=? e.1)%Z evs))
  ∧ ∀ (cutoff : Z) (dq : list (Z * string)),
      popleft_while cutoff (popleft_while cutoff dq) = popleft_while cutoff dq
      ∧ _count_mods now (popleft_while cutoff (popleft_while cutoff dq))
        = _count_mods now (popleft_while cutoff dq).
Proof.
  intros Hall. split.
  - rewrite count_mods_record_all by done. unfold _count_mods at 1. simpl. reflexivity.
  - intros cutoff dq. by rewrite popleft_while_idem.
Qed.

End SpikeFacts.

Section AlertFacts.
Context `{!Config}.

Lemma maybe_trigger_fires (t_count now t_collect : Z) (dq : list (Z * string)) (last : Z) :
  (SPIKE_THRESHOLD ≤ _count_mods t_count dq)%Z →
  (ALERT_COOLDOWN_SEC < now - last)%Z →
  _maybe_trigger_spike t_count now t_collect dq last
  = (now, Some (fromkeys (_collect_recent_paths t_collect dq))).
Proof.
  intros HT HC. unfold _maybe_trigger_spike.
  destruct (Z.leb_spec SPIKE_THRESHOLD (_count_mods t_count dq)); [|lia].
  destruct (Z.ltb_spec ALERT_COOLDOWN_SEC (now - last)); [done | lia].
Qed.

Lemma maybe_trigger_cooldown (t_count now t_collect : Z) (dq : list (Z * string)) (last : Z) :
  (now - last ≤ ALERT_COOLDOWN_SEC)%Z →
  _maybe_trigger_spike t_count now t_collect dq last = (last, None).
Proof.
  intros HC. unfold _maybe_trigger_spike.
  destruct (Z.ltb_spec ALERT_COOLDOWN_SEC (now - last)); [lia|].
  by rewrite andb_false_r.
Qed.

Lemma maybe_trigger_below (t_count now t_collect : Z) (dq : list (Z * string)) (last : Z) :
  (_count_mods t_count dq < SPIKE_THRESHOLD)%Z →
  _maybe_trigger_spike t_count now t_collect dq last = (last, None).
Proof.
  intros HT. unfold _maybe_trigger_spike.
  destruct (Z.leb_spec SPIKE_THRESHOLD (_count_mods t_count dq)); [lia | done].
Qed.

(** An alert is scheduled exactly when both tests pass, and then
    [last_alert_ts] becomes [now]. *)
Lemma maybe_trigger_inv (t_count now t_collect : Z) (dq : list (Z * string))
  (last last' : Z) (paths : list string) :
  _maybe_trigger_spike t_count now t_collect dq last = (last', Some paths) →
  last' = now ∧ (ALERT_COOLDOWN_SEC < now - last)%Z
  ∧ (SPIKE_THRESHOLD ≤ _count_mods t_count dq)%Z.
Proof.
  unfold _maybe_trigger_spike.
  destruct (Z.leb_spec SPIKE_THRESHOLD (_count_mods t_count dq));
    destruct (Z.ltb_spec ALERT_COOLDOWN_SEC (now - last)); simpl; intros [= <- <-] || intros [=].
  done.
Qed.

Lemma maybe_trigger_none (t_count now t_collect : Z) (dq : list (Z * string)) (last last' : Z) :
  _maybe_trigger_spike t_count now t_collect dq last = (last', None) → last' = last.
Proof.
  unfold _maybe_trigger_spike.
  destruct (_ && _); by intros [=].
Qed.

Lemma spike_run_cooldown (calls : list SpikeCall) (dq : list (Z * string)) (last : Z) :
  cooldown_respected last (spike_run calls dq last).2.
Proof.
  revert dq last. induction calls as [|c calls IH]; intros dq last; simpl; [done|].
  destruct c as [t p | t1 t2 t3]; [apply IH|].
  destruct (_maybe_trigger_spike t1 t2 t3 dq last) as [last' [paths|]] eqn:E.
  - apply maybe_trigger_inv in E as (-> & HC & _). simpl. split; [done | apply IH].
  - apply maybe_trigger_none in E as ->. apply IH.
Qed.

(** [dict.fromkeys] keeps every key once. *)
Lemma fromkeys_from_spec (seen l : list string) :
  NoDup (fromkeys_from seen l)
  ∧ ∀ x, x ∈ fromkeys_from seen l ↔ x ∈ l ∧ x ∉ seen.
Proof.
  revert seen. induction l as [|y rest IH]; intros seen; simpl.
  - split; [constructor|]. intros x. split; [by intros ?%elem_of_nil | by intros [?%elem_of_nil _]].
  - destruct (bool_decide (y ∈ seen)) eqn:E.
    + apply bool_decide_eq_true in E. destruct (IH seen) as [Hnd Hin]. split; [done|].
      intros x. rewrite Hin, elem_of_cons. split; [tauto|].
      intros [[->|Hx] Hs]; [done | tauto].
    + apply bool_decide_eq_false in E. destruct (IH (y :: seen)) as [Hnd Hin]. split.
      * constructor; [|done]. rewrite Hin. intros [_ Hy]. apply Hy, list_elem_of_here.
      * intros x. rewrite !elem_of_cons, Hin, not_elem_of_cons.
        destruct (decide (x = y)) as [->|Hne]; tauto.
Qed.

Lemma fromkeys_spec (l : list string) :
  NoDup (fromkeys l) ∧ ∀ x, x ∈ fromkeys l ↔ x ∈ l.
Proof.
  unfold fromkeys. destruct (fromkeys_from_spec [] l) as [Hnd Hin]. split; [done|].
  intros x. rewrite Hin. split; [tauto|]. intros Hx. split; [done|]. apply not_elem_of_nil.
Qed.

Lemma maybe_trigger_spike_fires (clk : nat → Z) (s : State) :
  (SPIKE_THRESHOLD ≤ _count_mods (clk (ticks s)) (mod_deque s))%Z →
  (ALERT_COOLDOWN_SEC < clk (S (ticks s)) - last_alert_ts s)%Z →
  scheduled (maybe_trigger_spike clk s)
  = scheduled s ++ [fromkeys (_collect_recent_paths (clk (S (S (ticks s)))) (mod_deque s))]
  ∧ last_alert_ts (maybe_trigger_spike clk s) = clk (S (ticks s)).
Proof.
  intros HT HC. unfold maybe_trigger_spike. by rewrite maybe_trigger_fires.
Qed.

Lemma maybe_trigger_spike_cooldown (clk : nat → Z) (s : State) :
  (clk (S (ticks s)) - last_alert_ts s ≤ ALERT_COOLDOWN_SEC)%Z →
  scheduled (maybe_trigger_spike clk s) = scheduled s
  ∧ last_alert_ts (maybe_trigger_spike clk s) = last_alert_ts s.
Proof.
  intros HC. unfold maybe_trigger_spike. by rewrite maybe_trigger_cooldown.
Qed.

(** C1. Spike alerting discipline.  One call of [_maybe_trigger_spike]
    schedules exactly one alert and sets [last_alert_ts] to [now] when at
    least [SPIKE_THRESHOLD] entries are in the window and more than
    [ALERT_COOLDOWN_SEC] passed since [last_alert_ts]; before any alert has
    fired [last_alert_ts] is 0, and the alert fires as soon as the clock
    reads more than the cooldown.  Within the cooldown no alert fires,
    whatever the count; below the threshold none fires either.  Over any
    sequence of calls, every alert fires more than the cooldown after the
    previous one, so no burst yields two alerts within one cooldown
    period.  On the state of the monitor a firing call schedules exactly
    one alert, whose payload lists every path of the window once. *)
Theorem spike_alert_discipline :
  (∀ (t_count now t_collect : Z) (dq : list (Z * string)) (last : Z),
      (SPIKE_THRESHOLD ≤ _count_mods t_count dq)%Z →
      (ALERT_COOLDOWN_SEC < now - last)%Z →
      _maybe_trigger_spike t_count now t_collect dq last
      = (now, Some (fromkeys (_collect_recent_paths t_collect dq))))
  ∧ (∀ (t_count now t_collect : Z) (dq : list (Z * string)) (fs : FS) (log : list Row),
      (SPIKE_THRESHOLD ≤ _count_mods t_count dq)%Z →
      (ALERT_COOLDOWN_SEC < now)%Z →
      _maybe_trigger_spike t_count now t_collect dq (last_alert_ts (init_state fs log))
      = (now, Some (fromkeys (_collect_recent_paths t_collect dq))))
  ∧ (∀ (t_count now t_collect : Z) (dq : list (Z * string)) (last : Z),
      (now - last ≤ ALERT_COOLDOWN_SEC)%Z →
      _maybe_trigger_spike t_count now t_collect dq last = (last, None))
  ∧ (∀ (t_count now t_collect : Z) (dq : list (Z * string)) (last : Z),
      (_count_mods t_count dq < SPIKE_THRESHOLD)%Z →
      _maybe_trigger_spike t_count now t_collect dq last = (last, None))
  ∧ (∀ (calls : list SpikeCall) (dq : list (Z * string)) (last : Z),
      cooldown_respected last (spike_run calls dq last).2)
  ∧ (∀ (clk : nat → Z) (s : State),
      (SPIKE_THRESHOLD ≤ _count_mods (clk (ticks s)) (mod_deque s))%Z →
      (ALERT_COOLDOWN_SEC < clk (S (ticks s)) - last_alert_ts s)%Z →
      scheduled (maybe_trigger_spike clk s)
      = scheduled s ++ [fromkeys (_collect_recent_paths (clk (S (S (ticks s)))) (mod_deque s))]
      ∧ last_alert_ts (maybe_trigger_spike clk s) = clk (S (ticks s)))
  ∧ (∀ (clk : nat → Z) (s : State),
      (clk (S (ticks s)) - last_alert_ts s ≤ ALERT_COOLDOWN_SEC)%Z →
      scheduled (maybe_trigger_spike clk s) = scheduled s
      ∧ last_alert_ts (maybe_trigger_spike clk s) = last_alert_ts s)
  ∧ (∀ l : list string, NoDup (fromkeys l) ∧ ∀ x, x ∈ fromkeys l ↔ x ∈ l).
Proof.
  split; [exact maybe_trigger_fires|].
  split; [intros; apply maybe_trigger_fires; simpl; [done | lia]|].
  split; [exact maybe_trigger_cooldown|].
  split; [exact maybe_trigger_below|].
  split; [exact spike_run_cooldown|].
  split; [exact maybe_trigger_spike_fires|].
  split; [exact maybe_trigger_spike_cooldown | exact fromkeys_spec].
Qed.

End AlertFacts.

(** The example of the specification: window 5 s, threshold 8, cooldown
    60 s.  Eight events in seconds 0 to 4 fire one alert with eight paths; a
    second burst 10 s later fires none; a third one after 61 s fires again. *)
Example spike_three_bursts :
  let calls := Example.burst Example.t0 "a" ++ Example.burst (Example.t0 + 10) "b"
               ++ Example.burst (Example.t0 + 61) "c" in
  List.map (λ a, (a.1 - Example.t0, List.length a.2)%Z)
    (@spike_run Example.cfg_all calls [] 0).2
  = [(4, 8%nat); (65, 8%nat)]%Z.
Proof. vm_compute. reflexivity. Qed.

(** ** The processing loop *)

Section PollFacts.
Context `{!os_path.OsPath} `{!Config}.
Variable clk : nat → Z.

(** The entry just appended survives the pruning when the window is not
    negative. *)
Lemma record_mod_event_last (t : Z) (p : string) (dq : list (Z * string)) :
  (0 ≤ SPIKE_WINDOW_SEC)%Z → (t, p) ∈ _record_mod_event t p dq.
Proof.
  intros HW. unfold _record_mod_event.
  induction dq as [|e rest IH]; simpl.
  - destruct (Z.ltb_spec t (t - SPIKE_WINDOW_SEC)); [lia | apply list_elem_of_here].
  - destruct (e.1 <? t - SPIKE_WINDOW_SEC)%Z; [done|].
    apply list_elem_of_further, elem_of_app. right. apply list_elem_of_here.
Qed.

(** What [_enqueue] puts on the queue has a source or a destination path,
    [os.path.abspath] never returning the empty string. *)
Lemma make_item_has_path (now : datetime) (ty src : string) (dest : option string) :
  (∀ p, p ≠ "" → os_path.abspath p ≠ "") →
  check_path_of src dest ≠ "" →
  src_path (make_item now ty src dest) ≠ "" ∨ dest_path (make_item now ty src dest) ≠ "".
Proof.
  intros Habs. unfold check_path_of, make_item. simpl.
  destruct (pystr.truthy src) eqn:Es.
  - intros _. left. apply Habs. by apply truthy_true.
  - destruct dest as [d|]; simpl; [|done]. intros Hd. right.
    destruct (pystr.truthy d) eqn:Ed; [by apply Habs | by apply truthy_false in Ed].
Qed.

(** C10. Sliding-window membership by event kind.  An event taken from the
    queue (it has a source or a destination path) is recorded into the
    window when its type is modified, created or moved, under its source
    path, or its destination path when the source path is empty; an event of
    another type, deleted in particular, leaves the window and the count of
    [_count_mods] as they were. *)
Theorem window_membership_by_kind (s : State) (ev : Item) :
  src_path ev ≠ "" ∨ dest_path ev ≠ "" →
  let track_path := if pystr.truthy (src_path ev) then src_path ev else dest_path ev in
  let s' := poll_item clk s ev in
  (ev_type ev ∈ ["modified"; "created"; "moved"] →
     mod_deque s' = _record_mod_event (clk (ticks s)) track_path (mod_deque s)
     ∧ ((0 ≤ SPIKE_WINDOW_SEC)%Z → (clk (ticks s), track_path) ∈ mod_deque s'))
  ∧ (ev_type ev ∉ ["modified"; "created"; "moved"] →
     mod_deque s' = mod_deque s ∧ ∀ now, _count_mods now (mod_deque s') = _count_mods now (mod_deque s))
  ∧ (ev_type ev = "deleted" →
     mod_deque s' = mod_deque s ∧ ∀ now, _count_mods now (mod_deque s') = _count_mods now (mod_deque s)).
Proof.
  intros Hpath track_path s'.
  assert (Htrack : pystr.truthy track_path = true).
  { subst track_path. destruct (pystr.truthy (src_path ev)) eqn:E; [done|].
    apply truthy_false in E. apply truthy_true. tauto. }
  assert (Hother : ev_type ev ∉ ["modified"; "created"; "moved"] →
     mod_deque s' = mod_deque s ∧ ∀ now, _count_mods now (mod_deque s') = _count_mods now (mod_deque s)).
  { intros Hty. assert (mod_deque s' = mod_deque s) as ->; [|done].
    subst s'. unfold poll_item, tracked_types. by rewrite bool_decide_eq_false_2. }
  split; [|split; [exact Hother|]].
  - intros Hty.
    assert (mod_deque s' = _record_mod_event (clk (ticks s)) track_path (mod_deque s)) as ->.
    { subst s'. unfold poll_item, tracked_types. rewrite bool_decide_eq_true_2 by done.
      fold track_path. by rewrite Htrack. }
    split; [done|]. intros HW. by apply record_mod_event_last.
  - intros Hdel. apply Hother. rewrite Hdel. intros Hin.
    repeat (apply elem_of_cons in Hin as [Hin|Hin]; [discriminate|]).
    by apply elem_of_nil in Hin.
Qed.

End PollFacts.

(** ** The path filter *)

Section FilterFacts.
Context `{!os_path.OsPath} `{!Config}.

Lemma and_in_Some (x : string) (s : gset string) :
  and_in x (Some s) = true ↔ x ∈ s.
Proof.
  unfold and_in. rewrite andb_true_iff, negb_true_iff, bool_decide_eq_false, bool_decide_eq_true.
  split; [tauto|]. intros Hx. split; [|done]. intros ->. by apply not_elem_of_empty in Hx.
Qed.

Lemma is_monitored_restricted (abs_path : string) (b r : gset string) :
  BASENAMES = Some b → RELPATHS = Some r →
  _is_monitored_path abs_path = true ↔
    pystr.lower (os_path.basename abs_path) ∈ b
    ∨ os_path.normcase (os_path.normpath
        (default (os_path.basename abs_path) (os_path.relpath abs_path TARGET_DIRECTORY))) ∈ r.
Proof.
  intros Hb Hr. unfold _is_monitored_path. rewrite Hb, Hr.
  change (is_none (Some b) && is_none (Some r)) with false. cbv iota.
  set (rel := match os_path.relpath abs_path TARGET_DIRECTORY with
              | Some r0 => r0
              | None => os_path.basename abs_path
              end).
  change (default (os_path.basename abs_path) (os_path.relpath abs_path TARGET_DIRECTORY))
    with rel.
  pose proof (and_in_Some (os_path.normcase (os_path.normpath rel)) r) as Hy.
  pose proof (and_in_Some (pystr.lower (os_path.basename abs_path)) b) as Hx.
  destruct (and_in (os_path.normcase (os_path.normpath rel)) (Some r));
    destruct (and_in (pystr.lower (os_path.basename abs_path)) (Some b));
    intuition congruence.
Qed.

Lemma parse_files_shape (files_arg : string) :
  (pystr.strip files_arg = "" → parse_files files_arg = (None, None))
  ∧ (pystr.strip files_arg ≠ "" → ∃ b r, parse_files files_arg = (Some b, Some r)).
Proof.
  unfold parse_files. split.
  - intros ->. by rewrite andb_false_r.
  - intros Hs. assert (pystr.truthy (pystr.strip files_arg) = true) as Ht.
    { unfold pystr.truthy. by destruct (String.eqb_spec (pystr.strip files_arg) ""). }
    assert (pystr.truthy files_arg = true) as ->.
    { unfold pystr.truthy. destruct (String.eqb_spec files_arg "") as [->|]; [|done].
      by destruct Hs. }
    rewrite Ht. simpl. eauto.
Qed.

(** C7. Path filter semantics.  With no filter ([BASENAMES] and [RELPATHS]
    both [None]) every path matches.  With a filter, a path matches iff its
    lowercased base name is in [BASENAMES] or its path relative to
    [TARGET_DIRECTORY], normalized, is in [RELPATHS]; where [relpath] fails
    the base name takes the place of the relative path, so that only the
    base name is compared.  A filter whose two sets are empty matches no
    path.  The parsing of [--files] yields no filter for a blank argument
    and two sets otherwise, both empty for an argument such as [","]. *)
Theorem path_filter_semantics (abs_path : string) :
  (BASENAMES = None → RELPATHS = None → _is_monitored_path abs_path = true)
  ∧ (∀ (b r : gset string) (rel : string),
       BASENAMES = Some b → RELPATHS = Some r →
       os_path.relpath abs_path TARGET_DIRECTORY = Some rel →
       _is_monitored_path abs_path = true ↔
         pystr.lower (os_path.basename abs_path) ∈ b
         ∨ os_path.normcase (os_path.normpath rel) ∈ r)
  ∧ (∀ (b r : gset string),
       BASENAMES = Some b → RELPATHS = Some r →
       os_path.relpath abs_path TARGET_DIRECTORY = None →
       _is_monitored_path abs_path = true ↔
         pystr.lower (os_path.basename abs_path) ∈ b
         ∨ os_path.normcase (os_path.normpath (os_path.basename abs_path)) ∈ r)
  ∧ (BASENAMES = Some ∅ → RELPATHS = Some ∅ → _is_monitored_path abs_path = false)
  ∧ (∀ files_arg : string,
       (pystr.strip files_arg = "" → parse_files files_arg = (None, None))
       ∧ (pystr.strip files_arg ≠ "" → ∃ b r, parse_files files_arg = (Some b, Some r)))
  ∧ parse_files "," = (Some ∅, Some ∅).
Proof.
  split; [|split; [|split; [|split; [|split]]]].
  - intros Hb Hr. unfold _is_monitored_path. by rewrite Hb, Hr.
  - intros b r rel Hb Hr Hrel. rewrite (is_monitored_restricted _ b r Hb Hr), Hrel. done.
  - intros b r Hb Hr Hrel. rewrite (is_monitored_restricted _ b r Hb Hr), Hrel. done.
  - intros Hb Hr. apply not_true_is_false.
    rewrite (is_monitored_restricted _ ∅ ∅ Hb Hr).
    intros [Hx|Hx]; by apply not_elem_of_empty in Hx.
  - exact parse_files_shape.
  - reflexivity.
Qed.

End FilterFacts.

(** ** Events out of the scope *)

Section DiscardFacts.
Context `{!os_path.OsPath} `{!Config}.
Variable clk : nat → Z.

Lemma enqueue_out_of_scope (now : datetime) (ty src : string) (dest : option string)
  (q0 : list Item) :
  check_path_of src dest = "" ∨ _is_monitored_path (os_path.abspath (check_path_of src dest)) = false →
  _enqueue now ty src dest q0 = q0.
Proof.
  unfold _enqueue. intros [Hc|Hc].
  - apply truthy_false in Hc. by rewrite Hc.
  - rewrite Hc. simpl. by destruct (pystr.truthy _).
Qed.

Lemma dispatch_out_of_scope (now : datetime) (e : FileSystemEvent) (q0 : list Item) :
  checked_path e = "" ∨ _is_monitored_path (os_path.abspath (checked_path e)) = false →
  dispatch now e q0 = q0.
Proof.
  unfold dispatch, checked_path, on_created, on_deleted, on_modified, on_moved.
  destruct (kind e); intros Hc; try (by apply enqueue_out_of_scope); [|done].
  destruct (is_directory e); [done | by apply enqueue_out_of_scope].
Qed.

Lemma set_q_same (s : State) : set_q (q s) s = s.
Proof. by destruct s. Qed.

Lemma run_cons (s : State) (i : Input) (rest : list Input) :
  run clk s (i :: rest) = run clk (step clk s i) rest.
Proof. reflexivity. Qed.

Lemma run_app (s : State) (a b : list Input) :
  run clk s (a ++ b) = run clk (run clk s a) b.
Proof. unfold run. apply List.fold_left_app. Qed.

(** The item [_enqueue] builds is tracked under the path it checked. *)
Lemma make_item_track (now : datetime) (ty src : string) (dest : option string) :
  (∀ p, p ≠ "" → os_path.abspath p ≠ "") →
  check_path_of src dest ≠ "" →
  track_path_of (make_item now ty src dest) = os_path.abspath (check_path_of src dest).
Proof.
  intros Habs. unfold track_path_of, check_path_of, make_item. simpl.
  destruct (pystr.truthy src) eqn:Es.
  - intros _. apply truthy_true in Es. apply Habs in Es. apply truthy_true in Es. by rewrite Es.
  - simpl. destruct dest as [d|]; simpl; [|done]. intros Hd.
    apply truthy_true in Hd. by rewrite Hd.
Qed.

Lemma enqueue_in_scope (now : datetime) (ty src : string) (dest : option string)
  (q0 : list Item) :
  (∀ p, p ≠ "" → os_path.abspath p ≠ "") →
  Forall (λ ev, in_scope (track_path_of ev)) q0 →
  Forall (λ ev, in_scope (track_path_of ev)) (_enqueue now ty src dest q0).
Proof.
  intros Habs Hq. unfold _enqueue.
  destruct (pystr.truthy (check_path_of src dest)) eqn:Ec; simpl; [|done].
  destruct (_is_monitored_path (os_path.abspath (check_path_of src dest))) eqn:Em; simpl; [|done].
  apply Forall_app. split; [done|]. constructor; [|constructor].
  unfold in_scope. rewrite make_item_track; [done | done | by apply truthy_true].
Qed.

Lemma dispatch_in_scope (now : datetime) (e : FileSystemEvent) (q0 : list Item) :
  (∀ p, p ≠ "" → os_path.abspath p ≠ "") →
  Forall (λ ev, in_scope (track_path_of ev)) q0 →
  Forall (λ ev, in_scope (track_path_of ev)) (dispatch now e q0).
Proof.
  intros Habs Hq. unfold dispatch, on_created, on_deleted, on_modified, on_moved.
  destruct (kind e); try (by apply enqueue_in_scope); [|done].
  destruct (is_directory e); [done | by apply enqueue_in_scope].
Qed.

Lemma popleft_while_Forall (P : Z * string → Prop) (cutoff : Z) (dq : list (Z * string)) :
  Forall P dq → Forall P (popleft_while cutoff dq).
Proof.
  induction 1 as [|e rest He Hrest IH]; simpl; [done|].
  destruct (e.1 <? cutoff)%Z; [done | by constructor].
Qed.

Lemma record_mod_event_in_scope (t : Z) (p : string) (dq : list (Z * string)) :
  in_scope p → Forall (λ e, in_scope e.2) dq →
  Forall (λ e, in_scope e.2) (_record_mod_event t p dq).
Proof.
  intros Hp Hdq. unfold _record_mod_event. apply popleft_while_Forall.
  apply Forall_app. split; [done|]. by repeat constructor.
Qed.

Lemma fromkeys_from_Forall (P : string → Prop) (seen l : list string) :
  Forall P l → Forall P (fromkeys_from seen l).
Proof.
  intros Hl. revert seen. induction Hl as [|x rest Hx _ IH]; intros seen; simpl; [done|].
  destruct (bool_decide (x ∈ seen)); [apply IH | constructor; [done | apply IH]].
Qed.

Lemma collect_recent_paths_in_scope (now : Z) (dq : list (Z * string)) :
  Forall (λ e, in_scope e.2) dq → Forall in_scope (_collect_recent_paths now dq).
Proof.
  unfold _collect_recent_paths. induction 1 as [|e rest He _ IH]; simpl; [done|].
  destruct (in_window now e); simpl; [by constructor | done].
Qed.

Lemma poll_item_inv (s : State) (ev : Item) :
  in_scope (track_path_of ev) → scope_inv s → scope_inv (poll_item clk s ev).
Proof.
  intros Hev [Hq He Hd Hs Ha]. unfold poll_item, track_path_of in *.
  destruct (bool_decide (ev_type ev ∈ tracked_types));
    [destruct (pystr.truthy (if pystr.truthy (src_path ev) then src_path ev else dest_path ev))|];
    constructor; simpl; try done; try (by constructor).
  by apply record_mod_event_in_scope.
Qed.

Lemma poll_items_inv (items : list Item) (s : State) :
  Forall (λ ev, in_scope (track_path_of ev)) items → scope_inv s →
  scope_inv (List.fold_left (poll_item clk) items s).
Proof.
  intros Hi. revert s. induction Hi as [|ev rest Hev _ IH]; intros s Hs; simpl; [done|].
  apply IH. by apply poll_item_inv.
Qed.

Lemma maybe_trigger_spike_inv (s : State) :
  scope_inv s → scope_inv (maybe_trigger_spike clk s).
Proof.
  intros [Hq He Hd Hs Ha]. unfold maybe_trigger_spike, _maybe_trigger_spike.
  destruct (_ && _); constructor; simpl; try done.
  apply Forall_app. split; [done|]. constructor; [|constructor].
  by apply fromkeys_from_Forall, collect_recent_paths_in_scope.
Qed.

Lemma poll_queue_inv (s : State) : scope_inv s → scope_inv (poll_queue clk s).
Proof.
  intros Hs. unfold poll_queue.
  assert (scope_inv (List.fold_left (poll_item clk) (q s) (set_q [] s))) as H1.
  { apply poll_items_inv; [by destruct Hs|]. destruct Hs. by constructor. }
  destruct (q s); [done | by apply maybe_trigger_spike_inv].
Qed.

Lemma on_select_inv (sel : list nat) (s : State) : scope_inv s → scope_inv (on_select sel s).
Proof.
  intros Hs. unfold on_select. destruct sel as [|idx ?]; [done|].
  destruct (events s !! idx); [|done]. destruct Hs. by constructor.
Qed.

Lemma src_path_in_scope (ev : Item) :
  in_scope (track_path_of ev) → src_path ev = "" ∨ in_scope (src_path ev).
Proof.
  unfold track_path_of. destruct (pystr.truthy (src_path ev)) eqn:E; [by right|].
  apply truthy_false in E. by left.
Qed.

Lemma mark_ignore_inv (now : datetime) (s : State) :
  scope_inv s → scope_inv (mark_ignore now s).1.
Proof.
  intros Hs. unfold mark_ignore.
  destruct (selected_index s) as [i|]; [|done].
  destruct (events s !! i) as [ev|] eqn:Ei; [|done].
  assert (in_scope_row {| timestamp_iso := isoformat now; event_type := ev_type ev;
            event_path := src_path ev; action_taken := "ignored_by_user";
            note := "user indicated they performed the action" |}) as Hrow.
  { destruct Hs as [_ He _ _ _]. rewrite Forall_lookup in He.
    destruct (src_path_in_scope ev (He _ _ Ei)); [by left | by right; left]. }
  destruct Hs as [Hq He Hd Hsc Ha].
  destruct (_ && _);
    [destruct (update_snapshot_for _ _) as [fs' [[|] info]]|];
    constructor; simpl; try done; unfold csv_log;
    (apply Forall_app; split; [done | constructor; [exact Hrow | constructor]]).
Qed.

Lemma restore_original_inv (ts_now now : datetime) (s : State) :
  scope_inv s → scope_inv (restore_original ts_now now s).1.
Proof.
  intros Hs. unfold restore_original.
  destruct (selected_index s) as [i|]; [|done].
  destruct (events s !! i) as [ev|] eqn:Ei; [|done].
  assert (∀ action n, in_scope_row {| timestamp_iso := isoformat now; event_type := ev_type ev;
            event_path := src_path ev; action_taken := action; note := n |}) as Hrow.
  { intros action n. destruct Hs as [_ He _ _ _]. rewrite Forall_lookup in He.
    destruct (src_path_in_scope ev (He _ _ Ei)); [by left | by right; left]. }
  destruct Hs as [Hq He Hd Hsc Ha].
  repeat case_match; simpl; try done;
    constructor; simpl; try done; unfold csv_log;
    (apply Forall_app; split; [done | constructor; [apply Hrow | constructor]]).
Qed.

Lemma confirm_path_inv (now : datetime) (s : State) (p : string) :
  in_scope p → scope_inv s → scope_inv (confirm_path now s p).
Proof.
  intros Hp [Hq He Hd Hsc Ha]. unfold confirm_path.
  destruct (isfile p (disk s)); [|done].
  destruct (update_snapshot_for p (disk s)) as [fs' [[|] info]];
    constructor; simpl; try done.
  unfold csv_log. apply Forall_app; split; [done|].
  constructor; [|constructor]. by right; left.
Qed.

Lemma show_spike_alert_inv (now : datetime) (yes : bool) (paths : list string) (s : State) :
  Forall in_scope paths → scope_inv s → scope_inv (_show_spike_alert now yes paths s).
Proof.
  intros Hp Hs. unfold _show_spike_alert. destruct yes.
  - revert s Hs. induction Hp as [|p rest Hp0 _ IH]; intros s Hs; simpl; [done|].
    apply IH. by apply confirm_path_inv.
  - match goal with |- scope_inv (match _ with Some _ => on_select _ ?s1 | None => _ end) =>
      assert (scope_inv s1) as H1 end.
    { destruct Hs as [Hq He Hd Hsc Ha]. constructor; simpl; try done.
      unfold csv_log. apply Forall_app; split; [done|].
      constructor; [|constructor]. right; right. by exists paths. }
    destruct (idx_to_select _ _ _); [by apply on_select_inv | done].
Qed.

Lemma refresh_snapshot_inv (yes : bool) (walk : list (string * list string)) (s : State) :
  scope_inv s → scope_inv (refresh_snapshot yes walk s).1.
Proof.
  intros [Hq He Hd Hsc Ha]. unfold refresh_snapshot.
  repeat case_match; simpl; try done; constructor; simpl; done.
Qed.

Lemma step_inv (s : State) (i : Input) :
  (∀ p, p ≠ "" → os_path.abspath p ≠ "") →
  scope_inv s → scope_inv (step clk s i).
Proof.
  intros Habs Hs. destruct i as [now e| |now yes|sel|now|ts_now now|yes walk]; simpl.
  - destruct Hs as [Hq He Hd Hsc Ha]. constructor; simpl; try done.
    by apply dispatch_in_scope.
  - by apply poll_queue_inv.
  - destruct (scheduled s) as [|paths rest] eqn:Es; [done|].
    apply show_spike_alert_inv.
    + destruct Hs as [_ _ _ Hsc _]. rewrite Es in Hsc. by inversion Hsc.
    + destruct Hs as [Hq He Hd Hsc Ha]. constructor; simpl; try done.
      rewrite Es in Hsc. by inversion Hsc.
  - by apply on_select_inv.
  - by apply mark_ignore_inv.
  - by apply restore_original_inv.
  - by apply refresh_snapshot_inv.
Qed.

Lemma run_inv (inputs : list Input) (s : State) :
  (∀ p, p ≠ "" → os_path.abspath p ≠ "") →
  scope_inv s → scope_inv (run clk s inputs).
Proof.
  intros Habs. revert s. induction inputs as [|i rest IH]; intros s Hs; simpl; [done|].
  apply IH. by apply step_inv.
Qed.

Lemma init_state_inv (fs : FS) : scope_inv (init_state fs []).
Proof. by constructor. Qed.

(** C6. Out-of-scope events are fully discarded.  A raw event whose checked
    path is empty or does not match the filter is dropped by the handler:
    the queue stays as it was, and any run of the program is the same with
    and without that event, in its queue, its history, its window and its
    audit rows.  Moreover, in every run from the initial state nothing is
    held about the checked path [P] of such an event: no entry of the queue
    or of the history has it as source or tracked path, the window and the
    scheduled alerts do not contain it, and no audit row is written for it
    (a row of a reported burst lists paths of the scope only). *)
Theorem out_of_scope_discarded (now : datetime) (e : FileSystemEvent) :
  (∀ p, p ≠ "" → os_path.abspath p ≠ "") →
  checked_path e = "" ∨ _is_monitored_path (os_path.abspath (checked_path e)) = false →
  (∀ q0, dispatch now e q0 = q0)
  ∧ (∀ s pre post, run clk s (pre ++ Watch now e :: post) = run clk s (pre ++ post))
  ∧ (∀ (fs : FS) (inputs : list Input),
       let s := run clk (init_state fs []) inputs in
       let P := os_path.abspath (checked_path e) in
       checked_path e ≠ "" →
       (∀ it, it ∈ q s ++ events s → src_path it ≠ P ∧ track_path_of it ≠ P)
       ∧ (∀ t : Z, (t, P) ∉ mod_deque s)
       ∧ (∀ paths, paths ∈ scheduled s → P ∉ paths)
       ∧ (∀ r, r ∈ audit s →
            event_path r ≠ P
            ∨ (∃ paths, (P ∉ paths) ∧ event_path r = pystr.join ";" paths))).
Proof.
  intros Habs Hout. split; [|split].
  - intros q0. by apply dispatch_out_of_scope.
  - intros s pre post. rewrite !run_app, run_cons. simpl.
    rewrite dispatch_out_of_scope by done. by rewrite set_q_same.
  - intros fs inputs s P Hne.
    destruct Hout as [Hempty|Hout]; [done|].
    assert (HP : ¬ in_scope P) by (unfold in_scope; fold P in Hout; congruence).
    assert (HPne : P ≠ "") by (by apply Habs).
    assert (Hnotin : ∀ paths, Forall in_scope paths → P ∉ paths).
    { intros paths Hall Hin. rewrite Forall_forall in Hall. by apply HP, Hall. }
    destruct (run_inv inputs (init_state fs []) Habs (init_state_inv fs))
      as [Hq He Hd Hsc Ha]. fold s in Hq, He, Hd, Hsc, Ha.
    assert (Hitem : ∀ it, it ∈ q s ++ events s → in_scope (track_path_of it)).
    { intros it Hin. apply elem_of_app in Hin as [Hin|Hin];
        [rewrite Forall_forall in Hq; by apply Hq
        | rewrite Forall_forall in He; by apply He]. }
    split; [|split; [|split]].
    + intros it Hin. specialize (Hitem it Hin). split.
      * intros Heq. destruct (src_path_in_scope it Hitem) as [Hs|Hs]; [congruence|].
        apply HP. by rewrite <- Heq.
      * intros Heq. apply HP. by rewrite <- Heq.
    + intros t Hin. rewrite Forall_forall in Hd. by apply HP, (Hd _ Hin).
    + intros paths Hin. apply Hnotin. rewrite Forall_forall in Hsc. by apply Hsc.
    + intros r Hin. rewrite Forall_forall in Ha.
      destruct (Ha _ Hin) as [Hr|[Hr|(paths & Hall & Hr)]].
      * left. congruence.
      * left. intros Heq. apply HP. by rewrite <- Heq.
      * right. exists paths. split; [by apply Hnotin | done].
Qed.

End DiscardFacts.

(** ** Restoring and ignoring *)

Section FsFacts.
Context `{!os_path.OsPath}.

Lemma isfile_true (p : string) (fs : FS) : isfile p fs = true ↔ is_Some (files fs !! p).
Proof. unfold isfile. apply bool_decide_eq_true. Qed.

Lemma isdir_false (p : string) (fs : FS) : isdir p fs = false ↔ p ∉ dirs fs.
Proof. unfold isdir. apply bool_decide_eq_false. Qed.

Lemma makedirs_inr (name : string) (fs fs' : FS) :
  makedirs name fs = inr fs' →
  files fs' = files fs ∧ dirs fs' = {[name]} ∪ dirs fs.
Proof.
  unfold makedirs. destruct (negb (pystr.truthy name)); [done|].
  destruct (isfile name fs); [done|]. by intros [= <-].
Qed.

Lemma makedirs_inl (name : string) (fs : FS) (e : OSError) :
  makedirs name fs = inl e → name = "" ∨ isfile name fs = true.
Proof.
  unfold makedirs. destruct (pystr.truthy name) eqn:E; simpl.
  - destruct (isfile name fs); [by right | done].
  - apply truthy_false in E. by left.
Qed.

(** A copy onto a path that is not a directory writes that path, with the
    content of the source, which is another path. *)
Lemma copy2_inr (src dst : string) (fs fs' : FS) :
  copy2 src dst fs = inr fs' → dst ∉ dirs fs →
  ∃ data, files fs !! src = Some data ∧ src ≠ dst
          ∧ files fs' = <[dst := data]> (files fs) ∧ dirs fs' = dirs fs.
Proof.
  intros Hc Hd. unfold copy2 in Hc. apply isdir_false in Hd.
  rewrite Hd in Hc. cbv zeta in Hc. rewrite Hd in Hc.
  destruct (files fs !! src) as [data|] eqn:Es.
  - assert (path_exists src fs = true) as Hex.
    { unfold path_exists. assert (isfile src fs = true) as ->; [|done].
      apply isfile_true. by rewrite Es. }
    rewrite Hex, andb_true_r in Hc.
    destruct (bool_decide (src = dst)) eqn:Eq; [done|]. apply bool_decide_eq_false in Eq.
    injection Hc as <-. by exists data.
  - destruct (bool_decide (src = dst) && path_exists src fs); done.
Qed.

Lemma copy2_dirs (src dst : string) (fs fs' : FS) :
  copy2 src dst fs = inr fs' → dirs fs' = dirs fs.
Proof.
  unfold copy2. destruct (_ && _); [done|].
  destruct (files fs !! src); [|done].
  destruct (isdir _ fs); [done|]. by intros [= <-].
Qed.

End FsFacts.

Section RestoreFacts.
Context `{!os_path.OsPath} `{!Config}.

(** C3. Restore with a missing snapshot.  For a selected event with a source
    path [P], when [snapshot_path_for P] is empty or is not a regular file,
    [restore_original] reports the missing snapshot and returns normally;
    the file system (live file, snapshot and duplicates directories) and
    the rest of the state stay as they were, and exactly one row is
    appended to the audit file, with [action_taken] equal to
    [restore_failed_no_snapshot]. *)
Theorem restore_no_snapshot (ts_now now : datetime) (s : State) (i : nat) (ev : Item) :
  selected_index s = Some i →
  events s !! i = Some ev →
  src_path ev ≠ "" →
  snapshot_path_for (src_path ev) = "" ∨ isfile (snapshot_path_for (src_path ev)) (disk s) = false →
  let row := {| timestamp_iso := isoformat now;
                event_type := ev_type ev;
                event_path := src_path ev;
                action_taken := "restore_failed_no_snapshot";
                note := snapshot_path_for (src_path ev) |} in
  let r := restore_original ts_now now s in
  r = (set_audit (audit s ++ [row]) s, SnapshotMissing (snapshot_path_for (src_path ev)))
  ∧ disk r.1 = disk s
  ∧ audit r.1 = audit s ++ [row]
  ∧ (q r.1, events r.1, selected_index r.1, mod_deque r.1, last_alert_ts r.1, scheduled r.1)
    = (q s, events s, selected_index s, mod_deque s, last_alert_ts s, scheduled s).
Proof.
  intros Hsel Hev Hsrc Hsnap row r.
  assert (r = (set_audit (audit s ++ [row]) s, SnapshotMissing (snapshot_path_for (src_path ev)))) as ->.
  { subst r. unfold restore_original. rewrite Hsel, Hev.
    apply truthy_true in Hsrc. rewrite Hsrc. simpl.
    assert (negb (pystr.truthy (snapshot_path_for (src_path ev)))
            || negb (isfile (snapshot_path_for (src_path ev)) (disk s)) = true) as ->; [|done].
    destruct Hsnap as [Hs|Hs].
    - apply truthy_false in Hs. by rewrite Hs.
    - rewrite Hs. by rewrite orb_true_r. }
  done.
Qed.

(** [restore_original] reports the restore as done exactly when the
    snapshot is a regular file and none of the four file operations fails. *)
Lemma restore_original_Restored (ts_now now : datetime) (s s' : State) (i : nat) (ev : Item)
  (dup : string) :
  selected_index s = Some i →
  events s !! i = Some ev →
  let P := src_path ev in
  let sp := snapshot_path_for P in
  restore_original ts_now now s = (s', Restored dup) ↔
  ∃ rel fs1 fs2 fs3 fs4,
    P ≠ "" ∧ sp ≠ "" ∧ isfile sp (disk s) = true
    ∧ os_path.relpath P TARGET_DIRECTORY = Some rel
    ∧ makedirs (os_path.dirname P) (disk s) = inr fs1
    ∧ copy2 sp P fs1 = inr fs2
    ∧ makedirs (os_path.join DUPLICATES_DIR (os_path.dirname rel)) fs2 = inr fs3
    ∧ dup = os_path.join (os_path.join DUPLICATES_DIR (os_path.dirname rel))
              (os_path.basename P +:+ "." +:+ strftime_compact ts_now +:+ ".orig")
    ∧ copy2 sp dup fs3 = inr fs4
    ∧ s' = set_audit (audit s ++ [ {| timestamp_iso := isoformat now;
                                      event_type := ev_type ev;
                                      event_path := P;
                                      action_taken := "restored_and_duplicated";
                                      note := dup |} ]) (set_disk fs4 s).
Proof.
  intros Hsel Hev P sp. unfold restore_original. rewrite Hsel, Hev. fold P sp. split.
  - intros Hres.
    destruct (pystr.truthy P) eqn:EP; simpl in Hres; [|done].
    destruct (pystr.truthy sp) eqn:Esp; simpl in Hres; [|done].
    destruct (isfile sp (disk s)) eqn:Efile; simpl in Hres; [|done].
    destruct (makedirs (os_path.dirname P) (disk s)) as [e|fs1] eqn:E1; [done|].
    destruct (copy2 sp P fs1) as [e|fs2] eqn:E2; [done|].
    destruct (os_path.relpath P TARGET_DIRECTORY) as [rel|] eqn:Erel; [|done].
    destruct (makedirs _ fs2) as [e|fs3] eqn:E3; [done|].
    destruct (copy2 sp _ fs3) as [e|fs4] eqn:E4; [done|].
    injection Hres as <- <-. exists rel, fs1, fs2, fs3, fs4.
    apply truthy_true in EP, Esp. done.
  - intros (rel & fs1 & fs2 & fs3 & fs4 & HP & Hsp & Hfile & Hrel & E1 & E2 & E3 & -> & E4 & ->).
    apply truthy_true in HP, Hsp. rewrite HP, Hsp, Hfile. simpl.
    by rewrite E1, E2, Hrel, E3, E4.
Qed.


(** What a successful [update_snapshot_for] did, the slot not being a
    directory. *)
Lemma update_snapshot_for_ok (abs_path : string) (fs fs' : FS) (info : string) :
  update_snapshot_for abs_path fs = (fs', (true, info)) →
  snapshot_path_for abs_path ∉ dirs fs' →
  info = snapshot_path_for abs_path
  ∧ ∃ content, files fs !! abs_path = Some content
      ∧ abs_path ≠ snapshot_path_for abs_path
      ∧ files fs' = <[snapshot_path_for abs_path := content]> (files fs)
      ∧ dirs fs' = {[os_path.dirname (snapshot_path_for abs_path)]} ∪ dirs fs.
Proof.
  unfold update_snapshot_for. set (sp := snapshot_path_for abs_path).
  destruct (negb (pystr.truthy sp)); [done|].
  destruct (makedirs (os_path.dirname sp) fs) as [e|fs1] eqn:E1; [done|].
  destruct (copy2 abs_path sp fs1) as [e|fs2] eqn:E2; [done|].
  intros [= <- <-] Hd. split; [done|].
  apply makedirs_inr in E1 as [F1 D1]. pose proof (copy2_dirs _ _ _ _ E2) as D2.
  apply copy2_inr in E2 as (c & Hc & Hne & F2 & _); [|by rewrite <- D2].
  exists c. rewrite <- F1. split; [done|]. split; [done|]. split; [done|]. by rewrite D2.
Qed.


End RestoreFacts.

(** ** Decryption *)

Section DecryptFacts.
Variable derive_fernet_key : string → bytes → bytes.
Variable fernet_decrypt : bytes → bytes → option bytes.

(** C8. Decrypt failure atomicity.  For an artifact with content [content]:
    a content of at most [SALT_SIZE] bytes, a token [Fernet.decrypt]
    rejects (wrong password or tampering), and an output path that already
    exists each end [decrypt_file] with an error, a different one for each
    cause (the first cause in this order decides), and in all three cases
    the file system is left as it was: no output file is written. *)
Theorem decrypt_failure_atomic (enc_path password : string) (fs : FS) (content : bytes) :
  files fs !! enc_path = Some content →
  let key := derive_fernet_key password (List.firstn crypto_utils.SALT_SIZE content) in
  let token := List.skipn crypto_utils.SALT_SIZE content in
  let out_path := crypto_utils.out_path_of enc_path in
  let r := crypto_utils.decrypt_file derive_fernet_key fernet_decrypt enc_path password fs in
  ((List.length content ≤ crypto_utils.SALT_SIZE)%nat → r = (inl crypto_utils.TooShort, fs))
  ∧ ((crypto_utils.SALT_SIZE < List.length content)%nat → fernet_decrypt key token = None →
       r = (inl crypto_utils.InvalidToken, fs))
  ∧ ((crypto_utils.SALT_SIZE < List.length content)%nat → is_Some (fernet_decrypt key token) →
       path_exists out_path fs = true →
       r = (inl (crypto_utils.OutputExists out_path), fs))
  ∧ ((List.length content ≤ crypto_utils.SALT_SIZE)%nat
     ∨ fernet_decrypt key token = None
     ∨ path_exists out_path fs = true →
       r.2 = fs
       ∧ (r.1 = inl crypto_utils.TooShort ∨ r.1 = inl crypto_utils.InvalidToken
          ∨ r.1 = inl (crypto_utils.OutputExists out_path)))
  ∧ crypto_utils.TooShort ≠ crypto_utils.InvalidToken
  ∧ crypto_utils.TooShort ≠ crypto_utils.OutputExists out_path
  ∧ crypto_utils.InvalidToken ≠ crypto_utils.OutputExists out_path.
Proof.
  intros Hc key token out_path r. subst r. unfold crypto_utils.decrypt_file.
  rewrite Hc.
  fold key token out_path.
  destruct (Nat.leb_spec (List.length content) crypto_utils.SALT_SIZE) as [Hle|Hgt].
  - split; [done|]. split; [intros; lia|]. split; [intros; lia|].
    split; [intros _; split; [done | by left]|]. done.
  - destruct (fernet_decrypt key token) as [data|] eqn:Ed.
    + destruct (path_exists out_path fs) eqn:Ex.
      * split; [intros; lia|]. split; [done|]. split; [done|].
        split; [intros _; split; [done | by right; right]|]. done.
      * split; [intros; lia|]. split; [done|]. split; [done|].
        split; [intros [?|[?|?]]; (lia || done)|]. done.
    + split; [intros; lia|]. split; [done|]. split; [by intros _ [? ?]|].
      split; [intros _; split; [done | by right; left]|]. done.
Qed.

End DecryptFacts.

(** ** The initial snapshot *)

Section SnapshotFacts.
Context `{!os_path.OsPath} `{!Config}.

(** One file of the sweep: it is skipped, or its directory is made and the
    copy either fails with a warning or writes the slot. *)
Lemma snapshot_file_inr (root fname : string) (st st' : FS * list string) :
  snapshot_file TARGET_DIRECTORY root fname st = inr st' →
  entry_slot (root, fname) ∉ dirs st'.1 →
  ∃ rel, os_path.relpath (entry_src (root, fname)) TARGET_DIRECTORY = Some rel
    ∧ dirs st.1 ⊆ dirs st'.1
    ∧ ((take_file fname (os_path.normcase (os_path.normpath rel)) = false ∧ st' = st)
       ∨ (files st'.1 = files st.1 ∧ st'.2 = st.2 ++ [entry_src (root, fname)])
       ∨ (take_file fname (os_path.normcase (os_path.normpath rel)) = true
          ∧ st'.2 = st.2
          ∧ ∃ c, files st.1 !! entry_src (root, fname) = Some c
               ∧ files st'.1 = <[entry_slot (root, fname) := c]> (files st.1))).
Proof.
  unfold snapshot_file, entry_slot, snapshot_path_for, entry_src. simpl.
  destruct (os_path.relpath (os_path.join root fname) TARGET_DIRECTORY) as [rel|]; [|done].
  destruct (take_file fname _) eqn:Et; simpl.
  - destruct (makedirs _ st.1) as [e|fs1] eqn:E1; [done|].
    apply makedirs_inr in E1 as [F1 D1].
    destruct (copy2 _ _ fs1) as [e|fs2] eqn:E2; intros [= <-] Hd; simpl in *.
    + exists rel. split; [done|]. split; [rewrite D1; apply union_subseteq_r|]. right; left. by rewrite F1.
    + pose proof (copy2_dirs _ _ _ _ E2) as D2.
      apply copy2_inr in E2 as (c & Hc & _ & F2 & _); [|by rewrite <- D2].
      exists rel. split; [done|]. split; [rewrite D2, D1; apply union_subseteq_r|]. right; right.
      split; [done|]. split; [done|]. exists c. by rewrite <- F1.
  - intros [= <-] _. exists rel. split; [done|]. split; [done|]. by left.
Qed.

Lemma sweep_spec (entries : list (string * string)) :
  ∀ st st' : FS * list string,
    sweep TARGET_DIRECTORY entries st = inr st' →
    NoDup (List.map entry_slot entries) →
    (∀ e, e ∈ entries → entry_slot e ∉ dirs st'.1) →
    dirs st.1 ⊆ dirs st'.1
    ∧ (∀ p, p ∉ List.map entry_slot entries → files st'.1 !! p = files st.1 !! p)
    ∧ ∃ w, st'.2 = st.2 ++ w
        ∧ ∀ e rel, e ∈ entries →
            os_path.relpath (entry_src e) TARGET_DIRECTORY = Some rel →
            take_file e.2 (os_path.normcase (os_path.normpath rel)) = true →
            entry_src e ∉ w →
            entry_src e ∉ List.map entry_slot entries →
            is_Some (files st.1 !! entry_src e)
            ∧ files st'.1 !! entry_slot e = files st.1 !! entry_src e.
Proof.
  induction entries as [|[root fname] rest IH]; intros st st' Hs Hnd Hdir.
  - simpl in Hs. injection Hs as <-. split; [done|]. split; [done|].
    exists []. split; [by rewrite app_nil_r|]. intros e rel Hin. by apply elem_of_nil in Hin.
  - simpl in Hs.
    destruct (snapshot_file TARGET_DIRECTORY root fname st) as [err|st1] eqn:E1; [done|].
    apply NoDup_cons in Hnd as [Hfresh Hnd].
    destruct (IH st1 st' Hs Hnd) as (Hd_rest & Hframe & w & Hw & Hrest).
    { intros e He. apply Hdir. by apply list_elem_of_further. }
    apply snapshot_file_inr in E1 as (rel0 & Hrel0 & Hd1 & Hcase).
    2:{ intros Hin. apply (Hdir (root, fname)); [apply list_elem_of_here|]. by apply Hd_rest. }
    split; [by etrans|].
    assert (Hstep_frame : ∀ p, p ≠ entry_slot (root, fname) → files st1.1 !! p = files st.1 !! p).
    { intros p Hp. destruct Hcase as [[_ ->]|[[-> _]|(_ & _ & c & _ & ->)]]; [done|done|].
      by rewrite lookup_insert_ne. }
    split.
    { intros p Hp. simpl in Hp. apply not_elem_of_cons in Hp as [Hp0 Hp].
      rewrite Hframe by done. by apply Hstep_frame. }
    assert (Htail : ∀ w0, st1.2 = st.2 ++ w0 →
      ∀ e rel, e ∈ rest →
        os_path.relpath (entry_src e) TARGET_DIRECTORY = Some rel →
        take_file e.2 (os_path.normcase (os_path.normpath rel)) = true →
        entry_src e ∉ w →
        entry_src e ∉ List.map entry_slot ((root, fname) :: rest) →
        is_Some (files st.1 !! entry_src e)
        ∧ files st'.1 !! entry_slot e = files st.1 !! entry_src e).
    { intros w0 _ e rel He Hrel Htake Hnw Hns. simpl in Hns.
      apply not_elem_of_cons in Hns as [Hns0 Hns].
      destruct (Hrest e rel He Hrel Htake Hnw Hns) as [Hsome Heq].
      rewrite Hstep_frame in Hsome, Heq by done. done. }
    destruct Hcase as [[Hskip ->]|[[HF Hwarn]|(Htake0 & Hsame & c & Hc & HF)]].
    + exists w. split; [done|]. intros e rel He Hrel Htake Hnw Hns.
      apply elem_of_cons in He as [->|He].
      * simpl in *. rewrite Hrel0 in Hrel. injection Hrel as <-. congruence.
      * by apply (Htail [] (eq_sym (app_nil_r _)) e rel).
    + exists (entry_src (root, fname) :: w). split.
      { rewrite Hw, Hwarn. by rewrite <- app_assoc. }
      intros e rel He Hrel Htake Hnw Hns. apply not_elem_of_cons in Hnw as [Hne Hnw].
      apply elem_of_cons in He as [->|He]; [done|].
      by apply (Htail [entry_src (root, fname)] Hwarn e rel).
    + exists w. split; [by rewrite Hw, Hsame|].
      intros e rel He Hrel Htake Hnw Hns.
      apply elem_of_cons in He as [->|He].
      * split; [by rewrite Hc|]. rewrite Hframe by done.
        rewrite HF, lookup_insert_eq. by rewrite Hc.
      * apply (Htail [] (eq_trans Hsame (eq_sym (app_nil_r _))) e rel); done.
Qed.

(** The scope test of the sweep is the one of the path filter, the base
    name of [root/fname] being [fname]. *)
Lemma take_file_is_monitored (root fname rel : string) :
  os_path.relpath (os_path.join root fname) TARGET_DIRECTORY = Some rel →
  os_path.basename (os_path.join root fname) = fname →
  take_file fname (os_path.normcase (os_path.normpath rel))
  = _is_monitored_path (os_path.join root fname).
Proof.
  intros Hrel Hbase. unfold take_file, _is_monitored_path. rewrite Hrel, Hbase.
  destruct (is_none BASENAMES && is_none RELPATHS); [done|].
  destruct (and_in (os_path.normcase (os_path.normpath rel)) RELPATHS);
    destruct (and_in (pystr.lower fname) BASENAMES); done.
Qed.

(** C4. Snapshot round trip.  After [create_initial_snapshot] has completed
    on [TARGET_DIRECTORY], for every file of the walk that passes the scope
    test and drew no warning, [snapshot_path_for] of its path is
    [SNAPSHOT_DIR] joined with its path relative to [TARGET_DIRECTORY], and
    the file there has the content the live file had when the sweep
    started.  The snapshot area is taken to be apart from the monitored
    tree: the files of the walk have distinct slots, no slot is itself a
    file of the walk, and no slot is a directory. *)
Theorem snapshot_round_trip (walk : list (string * list string)) (fs fs' : FS)
  (warnings : list string) :
  create_initial_snapshot TARGET_DIRECTORY walk fs = inr (fs', warnings) →
  NoDup (List.map entry_slot (walk_entries walk)) →
  (∀ e e', e ∈ walk_entries walk → e' ∈ walk_entries walk → entry_slot e ≠ entry_src e') →
  (∀ e, e ∈ walk_entries walk → entry_slot e ∉ dirs fs') →
  ∀ (root fname rel : string),
    (root, fname) ∈ walk_entries walk →
    let src := os_path.join root fname in
    os_path.relpath src TARGET_DIRECTORY = Some rel →
    take_file fname (os_path.normcase (os_path.normpath rel)) = true →
    src ∉ warnings →
    snapshot_path_for src = os_path.join SNAPSHOT_DIR rel
    ∧ is_Some (files fs !! src)
    ∧ files fs' !! snapshot_path_for src = files fs !! src.
Proof.
  intros Hc Hnd Hsep Hdir root fname rel Hin src Hrel Htake Hnw.
  unfold create_initial_snapshot in Hc.
  destruct (negb (isdir TARGET_DIRECTORY fs)); [done|].
  destruct (sweep_spec _ _ _ Hc Hnd Hdir) as (_ & _ & w & Hw & Hall).
  simpl in Hw. subst w.
  split; [unfold snapshot_path_for; by rewrite Hrel|].
  apply (Hall (root, fname) rel Hin Hrel Htake Hnw).
  intros Hs. apply list_elem_of_In, List.in_map_iff in Hs as (e & Heq & He).
  apply list_elem_of_In in He. by apply (Hsep e (root, fname) He Hin).
Qed.

End SnapshotFacts.

(** ** The statements on concrete inputs *)

Lemma posix_normpath_nonempty (p : string) : posixpath.normpath p ≠ "".
Proof.
  unfold posixpath.normpath. destruct (negb (pystr.truthy p)); [done|].
  match goal with |- (if pystr.truthy ?r then _ else _) ≠ _ => destruct (pystr.truthy r) eqn:E end;
    [by apply truthy_true | done].
Qed.

Lemma posix_abspath_nonempty (cwd p : string) : p ≠ "" → posixpath.abspath cwd p ≠ "".
Proof.
  intros _. unfold posixpath.abspath.
  destruct (pystr.startswith p "/"); apply posix_normpath_nonempty.
Qed.

Example selected_state :
  events (Example.selected Example.tree) = [Example.item_a]
  ∧ selected_index (Example.selected Example.tree) = Some 0%nat
  ∧ mod_deque (Example.selected Example.tree) = [(Example.t0, "/mon/a.txt")].
Proof. vm_compute. done. Qed.

Lemma sliding_window_count_witness :
  @_count_mods Example.cfg_all (Example.t0 + 8)
    (@record_all Example.cfg_all (Example.burst_events Example.t0 "a") [])
  = 3%Z.
Proof.
  refine (eq_trans (proj1 (@sliding_window_count Example.cfg_all
            (Example.burst_events Example.t0 "a") (Example.t0 + 8)%Z _)) _).
  - repeat constructor; vm_compute; discriminate.
  - vm_compute. reflexivity.
Defined.

Lemma spike_alert_discipline_witness :
  @_maybe_trigger_spike Example.cfg_all (Example.t0 + 4) (Example.t0 + 4) (Example.t0 + 4)
    (Example.burst_events Example.t0 "a") 0
  = ((Example.t0 + 4)%Z,
     Some (fromkeys (@_collect_recent_paths Example.cfg_all (Example.t0 + 4)
                       (Example.burst_events Example.t0 "a")))).
Proof.
  apply (proj1 (@spike_alert_discipline Example.cfg_all)); vm_compute;
    (discriminate || reflexivity).
Defined.

Lemma window_membership_by_kind_witness :
  mod_deque (@poll_item Example.cfg_all Example.clk
               (Example.selected Example.tree) Example.item_deleted)
  = mod_deque (Example.selected Example.tree).
Proof.
  refine (proj1 (proj2 (proj2 (@window_membership_by_kind Example.cfg_all Example.clk
            (Example.selected Example.tree) Example.item_deleted _)) _)).
  - left. discriminate.
  - reflexivity.
Defined.

Lemma path_filter_semantics_witness :
  @_is_monitored_path Example.os Example.cfg_filtered "/mon/docs/a.txt" = true
  ∧ @_is_monitored_path Example.os Example.cfg_filtered "/mon/sub/NOTES.txt" = true.
Proof.
  split.
  - refine (proj2 (proj1 (proj2 (@path_filter_semantics Example.os Example.cfg_filtered
              "/mon/docs/a.txt")) {["notes.txt"]} {["docs/a.txt"]} "docs/a.txt" _ _ _) _).
    + vm_compute. reflexivity.
    + vm_compute. reflexivity.
    + vm_compute. reflexivity.
    + right. apply elem_of_singleton. vm_compute. reflexivity.
  - refine (proj2 (proj1 (proj2 (@path_filter_semantics Example.os Example.cfg_filtered
              "/mon/sub/NOTES.txt")) {["notes.txt"]} {["docs/a.txt"]} "sub/NOTES.txt" _ _ _) _).
    + vm_compute. reflexivity.
    + vm_compute. reflexivity.
    + vm_compute. reflexivity.
    + left. apply elem_of_singleton. vm_compute. reflexivity.
Defined.

Lemma out_of_scope_discarded_witness :
  @dispatch Example.os Example.cfg_filtered Example.now (Example.modified "/mon/photo.jpg") []
  = [].
Proof.
  apply (@out_of_scope_discarded Example.os Example.cfg_filtered Example.clk).
  - apply posix_abspath_nonempty.
  - right. vm_compute. reflexivity.
Defined.

Lemma restore_no_snapshot_witness :
  disk (@restore_original Example.os Example.cfg_all Example.later Example.later
          (Example.selected Example.tree)).1 = Example.tree
  ∧ List.map action_taken
      (audit (@restore_original Example.os Example.cfg_all Example.later Example.later
                (Example.selected Example.tree)).1)
    = ["restore_failed_no_snapshot"].
Proof.
  destruct (@restore_no_snapshot Example.os Example.cfg_all Example.later Example.later
              (Example.selected Example.tree) 0%nat Example.item_a)
    as (_ & Hdisk & Haudit & _).
  - reflexivity.
  - vm_compute. reflexivity.
  - discriminate.
  - right. vm_compute. reflexivity.
  - split; [exact Hdisk | rewrite Haudit; reflexivity].
Defined.



Example ignore_updates_snapshot :
  let r := @mark_ignore Example.os Example.cfg_all Example.later
             (Example.selected Example.tree_with_snapshot) in
  r.2 = IgnoredSnapshotUpdated "/home/user/snapshots/a.txt"
  ∧ files (disk r.1) !! "/home/user/snapshots/a.txt" = Some (Example.text "changed").
Proof. vm_compute. done. Qed.

Example restore_overwrites_live_file :
  let r := @restore_original Example.os Example.cfg_all Example.later Example.later
             (Example.selected Example.tree_with_snapshot) in
  r.2 = Restored "/home/user/duplicates/a.txt.20261103T102105.orig"
  ∧ files (disk r.1) !! "/mon/a.txt" = Some (Example.text "original").
Proof. vm_compute. done. Qed.

Lemma decrypt_failure_atomic_witness :
  crypto_utils.decrypt_file Example.toy_derive Example.toy_decrypt "/v/short.enc" "pw"
    Example.vault
  = (inl crypto_utils.TooShort, Example.vault)
  ∧ crypto_utils.decrypt_file Example.toy_derive Example.toy_decrypt "/v/doc.txt.enc" "wrong"
      Example.vault
    = (inl crypto_utils.InvalidToken, Example.vault).
Proof.
  split.
  - refine (proj1 (@decrypt_failure_atomic Example.toy_derive Example.toy_decrypt
              "/v/short.enc" "pw" Example.vault (Example.text "0123456789abcdef") _) _).
    + vm_compute. reflexivity.
    + vm_compute. lia.
  - refine (proj1 (proj2 (@decrypt_failure_atomic Example.toy_derive Example.toy_decrypt
              "/v/doc.txt.enc" "wrong" Example.vault
              (Example.text "0123456789abcdefpwhello") _)) _ _).
    + vm_compute. reflexivity.
    + vm_compute. lia.
    + vm_compute. reflexivity.
Defined.

Example decrypt_writes_output :
  let r := crypto_utils.decrypt_file Example.toy_derive Example.toy_decrypt
             "/v/doc.txt.enc" "pw" Example.vault in
  r.1 = inr "/v/doc.txt" ∧ files r.2 !! "/v/doc.txt" = Some (Example.text "hello").
Proof. vm_compute. done. Qed.

Lemma snapshot_round_trip_witness :
  @snapshot_path_for Example.os Example.cfg_all "/mon/docs/a.txt"
  = "/home/user/snapshots/docs/a.txt"
  ∧ files Example.swept.1 !! "/home/user/snapshots/docs/a.txt" = Some (Example.text "doc").
Proof.
  assert (Hl : @walk_entries Example.walk
               = [("/mon", "a.txt"); ("/mon", "notes.txt"); ("/mon/docs", "a.txt")])
    by reflexivity.
  destruct (@snapshot_round_trip Example.os Example.cfg_all Example.walk Example.tree
              Example.swept.1 Example.swept.2) with (root := "/mon/docs") (fname := "a.txt")
              (rel := "docs/a.txt") as (H1 & _ & H3).
  - vm_compute. reflexivity.
  - apply (bool_decide_unpack _). vm_compute. exact I.
  - rewrite Hl. intros e e' He He'.
    repeat (apply elem_of_cons in He as [->|He]);
      repeat (apply elem_of_cons in He' as [->|He']);
      try (by apply elem_of_nil in He); try (by apply elem_of_nil in He');
      intros Heq; vm_compute in Heq; discriminate Heq.
  - rewrite Hl. intros e He.
    repeat (apply elem_of_cons in He as [->|He]); try (by apply elem_of_nil in He);
      apply (proj1 (bool_decide_eq_false _)); vm_compute; reflexivity.
  - rewrite Hl. apply list_elem_of_further, list_elem_of_further, list_elem_of_here.
  - vm_compute. reflexivity.
  - reflexivity.
  - apply (proj1 (bool_decide_eq_false _)). vm_compute. reflexivity.
  - split; [vm_compute in H1 |- *; exact H1 | vm_compute in H3 |- *; exact H3].
Defined.

Example initial_snapshot_copies_all :
  Example.swept.2 = []
  ∧ files Example.swept.1 !! "/home/user/snapshots/a.txt" = Some (Example.text "changed")
  ∧ files Example.swept.1 !! "/home/user/snapshots/notes.txt" = Some (Example.text "notes").
Proof. vm_compute. done. Qed.

(** Eight modifications polled together schedule one alert with the eight
    paths; the same burst polled again 10 s later schedules no second one. *)
Example mass_modification_alerts_once :
  let s1 := @run Example.os Example.cfg_all Example.clk (init_state Example.tree [])
              Example.mass_modification in
  let s2 := @run Example.os Example.cfg_all (λ n, Example.clk (n + 40)) s1
              Example.mass_modification in
  List.map (@List.length string) (scheduled s1) = [8%nat]
  ∧ last_alert_ts s1 = (Example.t0 + 2)%Z
  ∧ scheduled s2 = scheduled s1
  ∧ List.length (events s2) = 16%nat.
Proof. vm_compute. done. Qed.

(** Refreshing drops the old snapshot and takes a new one of the tree. *)
Example refresh_replaces_snapshot :
  let r := @refresh_snapshot Example.os Example.cfg_all true Example.walk
             (Example.selected Example.tree_with_snapshot) in
  r.2 = Refreshed []
  ∧ files (disk r.1) !! "/home/user/snapshots/a.txt" = Some (Example.text "changed")
  ∧ files (disk r.1) !! "/mon/a.txt" = Some (Example.text "changed").
Proof. vm_compute. done. Qed.

(** The parsing of [--files]: base names are lowercased, tokens with a
    separator are normalized as relative paths. *)
Example parse_files_tokens :
  @parse_files Example.os " Notes.TXT , docs\sub\..\a.txt,, "
  = (Some {["notes.txt"]}, Some {["docs/a.txt"]}).
Proof. vm_compute. reflexivity. Qed.

(** * Further properties *)

(** ** The window under a clock that does not go back *)

Section WindowFacts.
Context `{!Config}.








End WindowFacts.

(** ** What the handlers leave alone *)

Section FrameFacts.
Context `{!os_path.OsPath} `{!Config}.
Variable clk : nat → Z.

Lemma mark_ignore_frame (now : datetime) (s : State) :
  loop_part (mark_ignore now s).1 = loop_part s
  ∧ selected_index (mark_ignore now s).1 = selected_index s.
Proof. unfold mark_ignore. repeat case_match; done. Qed.

Lemma restore_original_frame (ts_now now : datetime) (s : State) :
  loop_part (restore_original ts_now now s).1 = loop_part s
  ∧ selected_index (restore_original ts_now now s).1 = selected_index s.
Proof. unfold restore_original. repeat case_match; done. Qed.

Lemma refresh_snapshot_frame (yes : bool) (walk : list (string * list string)) (s : State) :
  loop_part (refresh_snapshot yes walk s).1 = loop_part s
  ∧ selected_index (refresh_snapshot yes walk s).1 = selected_index s
  ∧ audit (refresh_snapshot yes walk s).1 = audit s.
Proof. unfold refresh_snapshot. repeat case_match; done. Qed.

Lemma confirm_path_frame (now : datetime) (s : State) (p : string) :
  loop_part (confirm_path now s p) = loop_part s
  ∧ selected_index (confirm_path now s p) = selected_index s.
Proof. unfold confirm_path. repeat case_match; done. Qed.

Lemma confirm_paths_frame (now : datetime) (paths : list string) (s : State) :
  loop_part (List.fold_left (confirm_path now) paths s) = loop_part s
  ∧ selected_index (List.fold_left (confirm_path now) paths s) = selected_index s.
Proof.
  revert s. induction paths as [|p rest IH]; intros s; simpl; [done|].
  destruct (IH (confirm_path now s p)) as [-> ->]. apply confirm_path_frame.
Qed.

Lemma on_select_frame (sel : list nat) (s : State) :
  loop_part (on_select sel s) = loop_part s
  ∧ disk (on_select sel s) = disk s ∧ audit (on_select sel s) = audit s.
Proof. unfold on_select. repeat case_match; done. Qed.

Lemma show_spike_alert_frame (now : datetime) (yes : bool) (paths : list string) (s : State) :
  loop_part (_show_spike_alert now yes paths s) = loop_part s.
Proof.
  unfold _show_spike_alert. destruct yes; [apply confirm_paths_frame|].
  case_match; [|done]. by destruct (on_select_frame [n]
    (set_audit (csv_log
       {| timestamp_iso := isoformat now; event_type := "user_reported_not_me";
          event_path := pystr.join ";" paths; action_taken := "alert_shown";
          note := "count=" +:+ pretty (List.length paths) |} (audit s)) s)) as [-> _].
Qed.

Lemma poll_item_fields (s : State) (ev : Item) :
  events (poll_item clk s ev) = ev :: events s
  ∧ q (poll_item clk s ev) = q s
  ∧ selected_index (poll_item clk s ev) = selected_index s
  ∧ last_alert_ts (poll_item clk s ev) = last_alert_ts s
  ∧ scheduled (poll_item clk s ev) = scheduled s
  ∧ disk (poll_item clk s ev) = disk s
  ∧ audit (poll_item clk s ev) = audit s.
Proof. unfold poll_item. repeat case_match; done. Qed.

Lemma poll_items_fields (items : list Item) (s : State) :
  let s' := List.fold_left (poll_item clk) items s in
  events s' = rev items ++ events s
  ∧ q s' = q s
  ∧ selected_index s' = selected_index s
  ∧ last_alert_ts s' = last_alert_ts s
  ∧ scheduled s' = scheduled s
  ∧ disk s' = disk s
  ∧ audit s' = audit s.
Proof.
  revert s. induction items as [|ev rest IH]; intros s; simpl; [done|].
  destruct (IH (poll_item clk s ev)) as (-> & -> & -> & -> & -> & -> & ->).
  destruct (poll_item_fields s ev) as (-> & -> & -> & -> & -> & -> & ->).
  by rewrite <- app_assoc.
Qed.

Lemma maybe_trigger_spike_fields (s : State) :
  let s' := maybe_trigger_spike clk s in
  events s' = events s ∧ q s' = q s ∧ selected_index s' = selected_index s
  ∧ mod_deque s' = mod_deque s ∧ disk s' = disk s ∧ audit s' = audit s
  ∧ ((0 ≤ ALERT_COOLDOWN_SEC)%Z → (last_alert_ts s ≤ last_alert_ts s')%Z).
Proof.
  unfold maybe_trigger_spike.
  destruct (_maybe_trigger_spike _ _ _ _ _) as [last' [paths|]] eqn:E; simpl.
  - apply maybe_trigger_inv in E as (-> & HC & _). repeat split; try done; lia.
  - apply maybe_trigger_none in E as ->. repeat split; try done; lia.
Qed.

Lemma poll_queue_fields (s : State) :
  let s' := poll_queue clk s in
  events s' = rev (q s) ++ events s ∧ q s' = []
  ∧ selected_index s' = selected_index s
  ∧ disk s' = disk s ∧ audit s' = audit s
  ∧ ((0 ≤ ALERT_COOLDOWN_SEC)%Z → (last_alert_ts s ≤ last_alert_ts s')%Z).
Proof.
  unfold poll_queue.
  destruct (poll_items_fields (q s) (set_q [] s)) as (He & Hq & Hsel & Hl & Hsc & Hd & Ha).
  simpl in *. destruct (q s) as [|it rest] eqn:Eq.
  - simpl in *. repeat split; try done; lia.
  - destruct (maybe_trigger_spike_fields
                (List.fold_left (poll_item clk) (it :: rest) (set_q [] s)))
      as (-> & -> & -> & _ & -> & -> & Hmono).
    rewrite He, Hq, Hsel, Hd, Ha. repeat split; try done.
    intros HC. specialize (Hmono HC). rewrite Hl in Hmono. done.
Qed.

(** X2. Whatever happens to the program and whatever the clock returns,
    the time of the last alert never moves back, the cooldown not being
    negative. *)
Theorem last_alert_ts_never_decreases (s : State) (inputs : list Input) :
  (0 ≤ ALERT_COOLDOWN_SEC)%Z →
  (last_alert_ts s ≤ last_alert_ts (run clk s inputs))%Z.
Proof.
  intros HC. revert s. induction inputs as [|i rest IH]; intros s; [simpl; lia|].
  rewrite run_cons. etrans; [|apply IH].
  destruct i as [now e| |now yes|sel|now|ts_now now|yes walk]; simpl.
  - lia.
  - by apply poll_queue_fields.
  - destruct (scheduled s) as [|paths more]; [lia|].
    pose proof (show_spike_alert_frame now yes paths (set_scheduled more s)) as Hf.
    unfold loop_part in Hf. simpl in Hf. injection Hf as _ _ _ -> _ _. lia.
  - destruct (on_select_frame sel s) as [Hf _]. injection Hf as _ _ _ -> _ _. lia.
  - destruct (mark_ignore_frame now s) as [Hf _]. injection Hf as _ _ _ -> _ _. lia.
  - destruct (restore_original_frame ts_now now s) as [Hf _]. injection Hf as _ _ _ -> _ _. lia.
  - destruct (refresh_snapshot_frame yes walk s) as (Hf & _). injection Hf as _ _ _ -> _ _. lia.
Qed.

End FrameFacts.

(** ** The history, the selection and the audit rows over a run *)

Section HistoryFacts.
Context `{!os_path.OsPath} `{!Config}.
Variable clk : nat → Z.

Lemma mark_ignore_audit (now : datetime) (s : State) :
  audit (mark_ignore now s).1 = audit s
  ∨ ∃ row, audit (mark_ignore now s).1 = audit s ++ [row]
           ∧ action_taken row = "ignored_by_user".
Proof.
  unfold mark_ignore, csv_log. repeat case_match; simpl; (by left) || (right; eauto).
Qed.

Lemma restore_original_audit (ts_now now : datetime) (s : State) :
  audit (restore_original ts_now now s).1 = audit s
  ∨ ∃ row, audit (restore_original ts_now now s).1 = audit s ++ [row].
Proof.
  unfold restore_original, csv_log. repeat case_match; simpl; (by left) || (right; eauto).
Qed.

Lemma confirm_paths_audit (now : datetime) (paths : list string) (s : State) :
  ∃ rows, audit (List.fold_left (confirm_path now) paths s) = audit s ++ rows
          ∧ (List.length rows ≤ List.length paths)%nat
          ∧ Forall (λ r, action_taken r = "snapshot_updated" ∧ event_path r ∈ paths) rows.
Proof.
  revert s. induction paths as [|p rest IH]; intros s; simpl.
  - exists []. by rewrite app_nil_r.
  - destruct (IH (confirm_path now s p)) as (rows & -> & Hlen & Hall).
    assert (Hrest : Forall (λ r, action_taken r = "snapshot_updated" ∧ event_path r ∈ p :: rest) rows).
    { eapply Forall_impl; [exact Hall|]. simpl. intros r [? ?]. split; [done|].
      by apply list_elem_of_further. }
    unfold confirm_path, csv_log. repeat case_match; simpl.
    + eexists (_ :: rows). rewrite <- app_assoc. split; [done|]. split; [simpl; lia|].
      constructor; [|done]. simpl. split; [done | apply list_elem_of_here].
    + exists rows. split; [done|]. split; [lia | done].
    + exists rows. split; [done|]. split; [lia | done].
Qed.

Lemma show_spike_alert_audit (now : datetime) (yes : bool) (paths : list string) (s : State) :
  ∃ rows, audit (_show_spike_alert now yes paths s) = audit s ++ rows.
Proof.
  unfold _show_spike_alert. destruct yes.
  - destruct (confirm_paths_audit now paths s) as (rows & -> & _). by exists rows.
  - case_match.
    + match goal with |- context [on_select ?sel ?s1] =>
        destruct (on_select_frame sel s1) as (_ & _ & ->) end.
      simpl. unfold csv_log. eauto.
    + simpl. unfold csv_log. eauto.
Qed.

Lemma step_audit (s : State) (i : Input) :
  ∃ rows, audit (step clk s i) = audit s ++ rows.
Proof.
  destruct i as [now e| |now yes|sel|now|ts_now now|yes walk]; simpl.
  - exists []. by rewrite app_nil_r.
  - destruct (poll_queue_fields clk s) as (_ & _ & _ & _ & -> & _). exists []. by rewrite app_nil_r.
  - destruct (scheduled s) as [|paths more]; [exists []; by rewrite app_nil_r|].
    apply (show_spike_alert_audit now yes paths (set_scheduled more s)).
  - destruct (on_select_frame sel s) as (_ & _ & ->). exists []. by rewrite app_nil_r.
  - destruct (mark_ignore_audit now s) as [->|(row & -> & _)]; [exists [] | exists [row]];
      by rewrite ?app_nil_r.
  - destruct (restore_original_audit ts_now now s) as [->|(row & ->)]; [exists [] | exists [row]];
      by rewrite ?app_nil_r.
  - destruct (refresh_snapshot_frame yes walk s) as (_ & _ & ->). exists []. by rewrite app_nil_r.
Qed.

(** X3. The audit file is append-only: over any run of the program the
    rows already written stay, in order, at the head of the file; the
    watcher, the polling loop, a selection in the list and a refresh of the
    snapshot write no row, and a click on "ignore" or "restore" writes at
    most one. *)
Theorem audit_append_only (s : State) (inputs : list Input) :
  (∃ rows, audit (run clk s inputs) = audit s ++ rows)
  ∧ (∀ now e, audit (step clk s (Watch now e)) = audit s)
  ∧ audit (step clk s PollQueue) = audit s
  ∧ (∀ sel, audit (step clk s (ListboxSelect sel)) = audit s)
  ∧ (∀ yes walk, audit (step clk s (ClickRefresh yes walk)) = audit s)
  ∧ (∀ now, (List.length (audit (step clk s (ClickIgnore now))) ≤ S (List.length (audit s)))%nat)
  ∧ (∀ ts_now now,
       (List.length (audit (step clk s (ClickRestore ts_now now)))
        ≤ S (List.length (audit s)))%nat).
Proof.
  split; [|split; [|split; [|split; [|split; [|split]]]]].
  - revert s. induction inputs as [|i rest IH]; intros s.
    + exists []. by rewrite app_nil_r.
    + rewrite run_cons. destruct (IH (step clk s i)) as (rows & ->).
      destruct (step_audit s i) as (rows0 & ->). exists (rows0 ++ rows). by rewrite app_assoc.
  - done.
  - simpl. by destruct (poll_queue_fields clk s) as (_ & _ & _ & _ & -> & _).
  - intros sel. simpl. by destruct (on_select_frame sel s) as (_ & _ & ->).
  - intros yes walk. simpl. by destruct (refresh_snapshot_frame yes walk s) as (_ & _ & ->).
  - intros now. simpl. destruct (mark_ignore_audit now s) as [->|(row & -> & _)];
      rewrite ?length_app; simpl; lia.
  - intros ts_now now. simpl. destruct (restore_original_audit ts_now now s) as [->|(row & ->)];
      rewrite ?length_app; simpl; lia.
Qed.

Lemma step_selection_valid (s : State) (i : Input) :
  (∀ k, selected_index s = Some k → is_Some (events s !! k)) →
  ∀ k, selected_index (step clk s i) = Some k → is_Some (events (step clk s i) !! k).
Proof.
  intros Hs. destruct i as [now e| |now yes|sel|now|ts_now now|yes walk]; simpl.
  - exact Hs.
  - destruct (poll_queue_fields clk s) as (-> & _ & -> & _). intros k Hk.
    destruct (Hs k Hk) as [ev Hev]. apply lookup_lt_is_Some.
    rewrite length_app. apply lookup_lt_Some in Hev. lia.
  - destruct (scheduled s) as [|paths more]; [exact Hs|].
    unfold _show_spike_alert. destruct yes.
    + destruct (confirm_paths_frame now paths (set_scheduled more s)) as [Hf ->].
      injection Hf as _ -> _ _ _ _. exact Hs.
    + case_match; [|exact Hs]. unfold on_select. simpl.
      destruct (events s !! n) eqn:E; simpl; [|exact Hs]. intros k [= <-]. by rewrite E.
  - unfold on_select. destruct sel as [|idx ?]; [exact Hs|].
    destruct (events s !! idx) eqn:E; simpl; [|exact Hs]. intros k [= <-]. by rewrite E.
  - destruct (mark_ignore_frame now s) as [Hf ->]. injection Hf as _ -> _ _ _ _. exact Hs.
  - destruct (restore_original_frame ts_now now s) as [Hf ->]. injection Hf as _ -> _ _ _ _.
    exact Hs.
  - destruct (refresh_snapshot_frame yes walk s) as (Hf & -> & _). injection Hf as _ -> _ _ _ _.
    exact Hs.
Qed.

Lemma run_selection_valid (inputs : list Input) (s : State) :
  (∀ k, selected_index s = Some k → is_Some (events s !! k)) →
  ∀ k, selected_index (run clk s inputs) = Some k → is_Some (events (run clk s inputs) !! k).
Proof.
  revert s. induction inputs as [|i rest IH]; intros s Hs; [exact Hs|].
  rewrite run_cons. apply IH. by apply step_selection_valid.
Qed.

(** X4. In every run from the initial state the selected index, when there
    is one, is an index of the history; so neither [mark_ignore] nor
    [restore_original] ever indexes the history out of range. *)
Theorem selection_always_valid (fs : FS) (log : list Row) (inputs : list Input)
  (ts_now now : datetime) :
  let s := run clk (init_state fs log) inputs in
  (∀ k, selected_index s = Some k → is_Some (events s !! k))
  ∧ (mark_ignore now s).2 ≠ IndexError
  ∧ (restore_original ts_now now s).2 ≠ IndexError.
Proof.
  intros s.
  assert (Hs : ∀ k, selected_index s = Some k → is_Some (events s !! k)).
  { subst s. by apply run_selection_valid. }
  split; [exact Hs|]. split.
  - unfold mark_ignore. destruct (selected_index s) as [k|] eqn:Ek; [|done].
    destruct (Hs k eq_refl) as [ev ->]. by repeat case_match.
  - unfold restore_original. destruct (selected_index s) as [k|] eqn:Ek; [|done].
    destruct (Hs k eq_refl) as [ev ->]. by repeat case_match.
Qed.

(** X5. [poll_queue] empties the queue into the history, the newest event
    first, and touches neither the file system, the audit file nor the
    selection; on an empty queue it changes nothing at all: the clock is
    not read and no alert is considered. *)
Theorem poll_queue_moves_queue_to_history (s : State) :
  let s' := poll_queue clk s in
  q s' = []
  ∧ events s' = rev (q s) ++ events s
  ∧ disk s' = disk s ∧ audit s' = audit s ∧ selected_index s' = selected_index s
  ∧ (q s = [] → s' = s).
Proof.
  intros s'. destruct (poll_queue_fields clk s) as (He & Hq & Hsel & Hd & Ha & _).
  repeat split; try done.
  intros Hq0. subst s'. unfold poll_queue. rewrite Hq0. simpl. rewrite <- Hq0. apply set_q_same.
Qed.


End HistoryFacts.

(** ** Restore and ignore: what they spare and how they fail *)

Section CopyFacts.
Context `{!os_path.OsPath}.

(** A copy writes one path other than its source, with the content of the
    source, and nothing else. *)
Lemma copy2_writes_one (src dst : string) (fs fs' : FS) :
  copy2 src dst fs = inr fs' →
  ∃ target data,
    files fs !! src = Some data ∧ target ≠ src
    ∧ files fs' = <[target := data]> (files fs) ∧ dirs fs' = dirs fs
    ∧ (dst ∉ dirs fs → target = dst).
Proof.
  unfold copy2. set (target := if isdir dst fs then _ else dst).
  destruct (files fs !! src) as [data|] eqn:Es.
  - assert (path_exists src fs = true) as ->.
    { unfold path_exists. assert (isfile src fs = true) as ->; [|done].
      apply isfile_true. by rewrite Es. }
    rewrite andb_true_r. destruct (bool_decide (src = target)) eqn:Eq; [done|].
    apply bool_decide_eq_false in Eq. destruct (isdir target fs); [done|].
    intros [= <-]. exists target, data.
    split; [done|]. split; [congruence|]. split; [done|]. split; [done|].
    intros Hd. apply isdir_false in Hd. subst target. by rewrite Hd.
  - destruct (_ && _); done.
Qed.

Lemma copy2_source_kept (src dst : string) (fs fs' : FS) :
  copy2 src dst fs = inr fs' → files fs' !! src = files fs !! src.
Proof.
  intros Hc. apply copy2_writes_one in Hc as (target & data & _ & Hne & -> & _).
  by rewrite lookup_insert_ne.
Qed.

End CopyFacts.

Section RestoreMore.
Context `{!os_path.OsPath} `{!Config}.

Lemma update_snapshot_for_source_kept (abs_path : string) (fs : FS) :
  files (update_snapshot_for abs_path fs).1 !! abs_path = files fs !! abs_path
  ∧ ((update_snapshot_for abs_path fs).2.1 = false →
       files (update_snapshot_for abs_path fs).1 = files fs)
  ∧ dirs fs ⊆ dirs (update_snapshot_for abs_path fs).1.
Proof.
  unfold update_snapshot_for.
  destruct (negb (pystr.truthy (snapshot_path_for abs_path))); [done|].
  destruct (makedirs _ fs) as [e|fs1] eqn:E1; [done|].
  apply makedirs_inr in E1 as [F1 D1].
  destruct (copy2 abs_path _ fs1) as [e|fs2] eqn:E2; simpl.
  - rewrite F1, D1. split; [done|]. split; [done|]. apply union_subseteq_r.
  - pose proof (copy2_source_kept _ _ _ _ E2) as Hk. pose proof (copy2_dirs _ _ _ _ E2) as D2.
    rewrite Hk, F1, D2, D1. split; [done|]. split; [done|]. apply union_subseteq_r.
Qed.

(** X7. Updating a snapshot never changes the live file it copies, whatever
    the outcome: neither [update_snapshot_for] nor [mark_ignore] alters the
    content of the source path, the copy only ever writing its
    destination.  When the relative path cannot be computed nothing at all
    is touched and the reason given is [no_snapshot_path].  (What a failed
    copy leaves at the destination is not stated.) *)
Theorem snapshot_update_spares_live_file (abs_path : string) (fs : FS) (now : datetime)
  (s : State) (i : nat) (ev : Item) :
  selected_index s = Some i →
  events s !! i = Some ev →
  files (update_snapshot_for abs_path fs).1 !! abs_path = files fs !! abs_path
  ∧ (os_path.relpath abs_path TARGET_DIRECTORY = None →
       update_snapshot_for abs_path fs = (fs, (false, "no_snapshot_path")))
  ∧ files (disk (mark_ignore now s).1) !! src_path ev = files (disk s) !! src_path ev.
Proof.
  intros Hsel Hev.
  destruct (update_snapshot_for_source_kept abs_path fs) as (H1 & _ & _).
  split; [exact H1|]. split.
  { intros Hrel. unfold update_snapshot_for, snapshot_path_for. by rewrite Hrel. }
  unfold mark_ignore. rewrite Hsel, Hev. simpl.
  destruct (pystr.truthy (src_path ev) && isfile (src_path ev) (disk s)); [|done].
  destruct (update_snapshot_for_source_kept (src_path ev) (disk s)) as (K1 & _ & _).
  destruct (update_snapshot_for (src_path ev) (disk s)) as [fs' [[|] info]]; simpl in *;
    exact K1.
Qed.

(** X8. A restore never changes the snapshot it restores from: whatever the
    outcome of [restore_original], the snapshot file of the selected path
    has the content it had, and the queue, the history, the window and the
    selection are as they were. *)
Theorem restore_spares_snapshot (ts_now now : datetime) (s : State) (i : nat) (ev : Item) :
  selected_index s = Some i →
  events s !! i = Some ev →
  let sp := snapshot_path_for (src_path ev) in
  let s' := (restore_original ts_now now s).1 in
  files (disk s') !! sp = files (disk s) !! sp
  ∧ loop_part s' = loop_part s
  ∧ selected_index s' = selected_index s.
Proof.
  intros Hsel Hev sp s'. split; [|apply restore_original_frame].
  subst s'. unfold restore_original. rewrite Hsel, Hev. fold sp.
  destruct (negb (pystr.truthy (src_path ev))); [done|].
  destruct (_ || _); [done|].
  destruct (makedirs _ (disk s)) as [e|fs1] eqn:E1; [done|].
  apply makedirs_inr in E1 as [F1 _].
  destruct (copy2 sp _ fs1) as [e|fs2] eqn:E2; simpl; [by rewrite F1|].
  pose proof (copy2_source_kept _ _ _ _ E2) as K2.
  destruct (os_path.relpath _ _) as [rel|]; simpl; [|by rewrite K2, F1].
  destruct (makedirs _ fs2) as [e|fs3] eqn:E3; simpl; [by rewrite K2, F1|].
  apply makedirs_inr in E3 as [F3 _].
  destruct (copy2 sp _ fs3) as [e|fs4] eqn:E4; simpl; [by rewrite F3, K2, F1|].
  pose proof (copy2_source_kept _ _ _ _ E4) as K4. by rewrite K4, F3, K2, F1.
Qed.

(** X9. How a restore fails.  When the directory of the file cannot be
    made, no file changes and no row is written.  When the copy of the
    snapshot fails, one [restore_failed_copy_error] row is written.  When
    the restore went through but the duplicate could not be saved, the file
    has the content of the snapshot (not being a directory) and the one row
    written says [restore_but_duplicate_failed]; and when the directory of
    the duplicate cannot be made the file is restored as well, no other
    file changes, but no row is written.  (What a failed copy leaves at its
    destination is not stated.) *)
Theorem restore_failure_outcomes (ts_now now : datetime) (s s' : State) (i : nat) (ev : Item)
  (o : Outcome) :
  selected_index s = Some i →
  events s !! i = Some ev →
  restore_original ts_now now s = (s', o) →
  let P := src_path ev in
  let sp := snapshot_path_for P in
  let row action n := {| timestamp_iso := isoformat now; event_type := ev_type ev;
                         event_path := P; action_taken := action; note := n |} in
  (∀ e, o = DestinationDirError e → files (disk s') = files (disk s) ∧ audit s' = audit s)
  ∧ (∀ e, o = RestoreFailed e →
       audit s' = audit s ++ [row "restore_failed_copy_error" (str_of_error e)])
  ∧ (∀ e, o = PartialSuccess e → P ∉ dirs (disk s') →
       ∃ content, files (disk s) !! sp = Some content
         ∧ files (disk s') !! P = Some content
         ∧ audit s' = audit s ++ [row "restore_but_duplicate_failed" (str_of_error e)])
  ∧ (∀ e, o = Raised e → P ∉ dirs (disk s') →
       ∃ content, files (disk s) !! sp = Some content
         ∧ files (disk s') = <[P := content]> (files (disk s))
         ∧ audit s' = audit s).
Proof.
  intros Hsel Hev Hres P sp row.
  unfold restore_original in Hres. rewrite Hsel, Hev in Hres. fold P sp in Hres.
  destruct (negb (pystr.truthy P)); [injection Hres as <- <-; by repeat split|].
  destruct (_ || _); [injection Hres as <- <-; by repeat split|].
  destruct (makedirs _ (disk s)) as [e1|fs1] eqn:E1; [injection Hres as <- <-|].
  { split; [done|]. split; [by intros ? [=]|]. split; by intros ? [=]. }
  apply makedirs_inr in E1 as [F1 D1].
  destruct (copy2 sp P fs1) as [e2|fs2] eqn:E2; [injection Hres as <- <-|].
  { split; [by intros ? [=]|]. split; [|split; by intros ? [=]].
    by intros e [= <-]. }
  pose proof (copy2_dirs _ _ _ _ E2) as D2.
  apply copy2_writes_one in E2 as (target & c & Hc & Hne & F2 & _ & Htarget).
  rewrite F1 in Hc, F2.
  destruct (os_path.relpath P TARGET_DIRECTORY) as [rel|]; [|injection Hres as <- <-].
  2:{ split; [by intros ? [=]|]. split; [by intros ? [=]|]. split; [by intros ? [=]|].
      intros e _ HP. simpl in *. exists c. rewrite Htarget in F2; [done|].
      rewrite D1. by rewrite D2, D1 in HP. }
  destruct (makedirs _ fs2) as [e3|fs3] eqn:E3; [injection Hres as <- <-|].
  { split; [by intros ? [=]|]. split; [by intros ? [=]|]. split; [by intros ? [=]|].
    intros e _ HP. simpl in *. exists c. rewrite Htarget in F2; [done|].
    rewrite D1. by rewrite D2, D1 in HP. }
  apply makedirs_inr in E3 as [F3 D3].
  destruct (copy2 sp _ fs3) as [e4|fs4] eqn:E4; injection Hres as <- <-.
  - split; [by intros ? [=]|]. split; [by intros ? [=]|]. split; [|by intros ? [=]].
    intros e [= <-] HP. simpl in *. exists c. rewrite F3. rewrite Htarget in F2.
    + split; [done|]. split; [|done]. rewrite F2. apply lookup_insert_eq.
    + rewrite D1. rewrite D3, D2, D1 in HP. intros Hin. apply HP. apply elem_of_union.
      by right.
  - split; [by intros ? [=]|]. split; [by intros ? [=]|]. split; by intros ? [=].
Qed.

(** When the restore is reported as done and neither the file nor the
    duplicate is a directory, both hold the content of the snapshot. *)
Lemma restore_original_Restored_files (ts_now now : datetime) (s s' : State) (i : nat)
  (ev : Item) (dup : string) :
  selected_index s = Some i →
  events s !! i = Some ev →
  restore_original ts_now now s = (s', Restored dup) →
  src_path ev ∉ dirs (disk s') →
  dup ∉ dirs (disk s') →
  ∃ content,
    files (disk s) !! snapshot_path_for (src_path ev) = Some content
    ∧ files (disk s') = <[dup := content]> (<[src_path ev := content]> (files (disk s))).
Proof.
  intros Hsel Hev Hres HP Hdup.
  apply (restore_original_Restored _ _ _ _ _ _ _ Hsel Hev) in Hres
    as (rel & fs1 & fs2 & fs3 & fs4 & _ & _ & _ & _ & E1 & E2 & E3 & _ & E4 & ->).
  simpl in HP, Hdup. simpl.
  apply makedirs_inr in E1 as [F1 D1]. apply makedirs_inr in E3 as [F3 D3].
  pose proof (copy2_dirs _ _ _ _ E2) as D2. pose proof (copy2_dirs _ _ _ _ E4) as D4.
  apply copy2_inr in E2 as (c & Hc & Hne & F2 & _).
  2:{ intros Hin. apply HP. rewrite D4, D3, D2. apply elem_of_union. by right. }
  apply copy2_inr in E4 as (c' & Hc' & Hne' & F4 & _); [|by rewrite D4 in Hdup].
  rewrite F1 in Hc. rewrite F3, F2, lookup_insert_ne in Hc' by done. rewrite F1 in Hc'.
  exists c. split; [done|]. rewrite F4, F3, F2, F1. congruence.
Qed.

(** X10. Ignore, then restore.  Once [mark_ignore] has updated the snapshot
    of the selected file, a later restore of that file brings back the
    content the file had when it was ignored, whatever was written to the
    file in between; the duplicate saved has that content too. *)
Theorem ignore_then_restore (now ts_now now' : datetime) (s s1 s2 : State) (i : nat)
  (ev : Item) (info dup : string) (tampered : bytes) :
  selected_index s = Some i →
  events s !! i = Some ev →
  mark_ignore now s = (s1, IgnoredSnapshotUpdated info) →
  restore_original ts_now now' (set_disk (write_file (src_path ev) tampered (disk s1)) s1)
  = (s2, Restored dup) →
  snapshot_path_for (src_path ev) ∉ dirs (disk s1) →
  src_path ev ∉ dirs (disk s2) →
  dup ∉ dirs (disk s2) →
  ∃ content,
    files (disk s) !! src_path ev = Some content
    ∧ files (disk s2) !! src_path ev = Some content
    ∧ files (disk s2) !! dup = Some content.
Proof.
  intros Hsel Hev Hign Hres Hsp HP Hdup.
  assert (Hs1 : selected_index s1 = Some i ∧ events s1 = events s).
  { destruct (mark_ignore_frame now s) as [Hf Hs]. rewrite Hign in Hf, Hs. simpl in *.
    injection Hf as _ Hf _ _ _ _. split; [by rewrite Hs | exact Hf]. }
  destruct Hs1 as [Hsel1 Hev1].
  assert (Hupd : ∃ c, files (disk s) !! src_path ev = Some c
                   ∧ src_path ev ≠ snapshot_path_for (src_path ev)
                   ∧ files (disk s1) = <[snapshot_path_for (src_path ev) := c]> (files (disk s))).
  { unfold mark_ignore in Hign. rewrite Hsel, Hev in Hign. simpl in Hign.
    destruct (_ && _); [|done].
    destruct (update_snapshot_for (src_path ev) (disk s)) as [fs' [[|] info']] eqn:E;
      [|done]. injection Hign as <- <-. simpl in Hsp.
    apply update_snapshot_for_ok in E as (_ & c & Hc & Hne & F & _); [|done]. by exists c. }
  destruct Hupd as (c & Hc & Hne & F1).
  destruct (restore_original_Restored_files ts_now now'
              (set_disk (write_file (src_path ev) tampered (disk s1)) s1) s2 i ev dup)
    as (c' & Hc' & F2);
    [done | simpl; by rewrite Hev1 | done | done | done |].
  simpl in Hc'. rewrite lookup_insert_ne, F1, lookup_insert_eq in Hc' by done.
  injection Hc' as <-. exists c. split; [done|]. rewrite F2. split.
  - destruct (decide (dup = src_path ev)) as [->|Hn]; [by rewrite lookup_insert_eq|].
    by rewrite lookup_insert_ne, lookup_insert_eq.
  - by rewrite lookup_insert_eq.
Qed.

End RestoreMore.

(** ** Encryption and decryption *)

Lemma str_length_app (a b : string) :
  String.length (a +:+ b) = (String.length a + String.length b)%nat.
Proof. induction a as [|c a IH]; simpl; [done | by rewrite IH]. Qed.

Lemma substring_after (a b : string) (k : nat) :
  substring (String.length a) k (a +:+ b) = substring 0 k b.
Proof. induction a as [|c a IH]; simpl; [done | exact IH]. Qed.

Lemma substring_whole (a : string) : substring 0 (String.length a) a = a.
Proof. induction a as [|c a IH]; simpl; [done | by rewrite IH]. Qed.

Lemma substring_before (a b : string) : substring 0 (String.length a) (a +:+ b) = a.
Proof. induction a as [|c a IH]; simpl; [by destruct b | by rewrite IH]. Qed.

Lemma substring_length_le (n m : nat) (s : string) :
  (String.length (substring n m s) ≤ m)%nat.
Proof.
  revert n m. induction s as [|c s IH]; intros n m; simpl.
  - destruct n, m; simpl; lia.
  - destruct n as [|n]; [destruct m as [|m]; simpl; [lia|]|apply IH].
    specialize (IH 0%nat m). lia.
Qed.

(** The output path is the input path without its [.enc], and so the
    path [encrypt_file] started from. *)
Lemma out_path_of_enc (path : string) : crypto_utils.out_path_of (path +:+ ".enc") = path.
Proof.
  unfold crypto_utils.out_path_of, pystr.endswith, pystr.drop_end.
  rewrite str_length_app. simpl String.length.
  replace (String.length path + 4 - 4)%nat with (String.length path) by lia.
  rewrite substring_after. simpl substring.
  assert ((4 <=? String.length path + 4)%nat = true) as -> by (apply Nat.leb_le; lia).
  simpl. apply substring_before.
Qed.

Lemma out_path_of_neq (enc_path : string) : crypto_utils.out_path_of enc_path ≠ enc_path.
Proof.
  unfold crypto_utils.out_path_of, pystr.endswith, pystr.drop_end. simpl String.length.
  destruct (Nat.leb_spec 4 (String.length enc_path)) as [Hle|Hlt]; simpl.
  - destruct (String.eqb _ ".enc").
    + intros Heq. apply (f_equal String.length) in Heq.
      pose proof (substring_length_le 0 (String.length enc_path - 4) enc_path). lia.
    + intros Heq. apply (f_equal String.length) in Heq. rewrite str_length_app in Heq.
      simpl in Heq. lia.
  - intros Heq. apply (f_equal String.length) in Heq. rewrite str_length_app in Heq.
    simpl in Heq. lia.
Qed.

Section CryptoFacts.
Variable derive_fernet_key : string → bytes → bytes.
Variable fernet_decrypt : bytes → bytes → option bytes.
Variable fernet_encrypt : bytes → bytes → bytes → bytes.

(** X11. A successful [decrypt_file] writes one new file and nothing else:
    the output path is the one computed from the name of the artifact, it
    differs from the artifact and did not exist before; it receives the
    decrypted data, and the artifact and every other file are as they
    were. *)
Theorem decrypt_file_writes_one_new_file (enc_path password out : string) (fs fs' : FS) :
  crypto_utils.decrypt_file derive_fernet_key fernet_decrypt enc_path password fs
  = (inr out, fs') →
  out = crypto_utils.out_path_of enc_path
  ∧ out ≠ enc_path
  ∧ path_exists out fs = false
  ∧ ∃ content data,
      files fs !! enc_path = Some content
      ∧ fernet_decrypt (derive_fernet_key password (List.firstn crypto_utils.SALT_SIZE content))
          (List.skipn crypto_utils.SALT_SIZE content) = Some data
      ∧ files fs' = <[out := data]> (files fs)
      ∧ dirs fs' = dirs fs
      ∧ files fs' !! enc_path = Some content.
Proof.
  unfold crypto_utils.decrypt_file.
  destruct (files fs !! enc_path) as [content|] eqn:Ec; [|done].
  destruct (_ <=? _)%nat; [done|].
  destruct (fernet_decrypt _ _) as [data|] eqn:Ed; [|done].
  destruct (path_exists _ fs) eqn:Ex; [done|].
  destruct (negb _); [done|]. intros [= <- <-].
  split; [done|]. split; [apply out_path_of_neq|]. split; [done|].
  exists content, data. split; [done|]. split; [done|]. split; [done|]. split; [done|].
  simpl. rewrite lookup_insert_ne; [done | apply out_path_of_neq].
Qed.

Lemma encrypt_file_inr (salt entropy : bytes) (path password out : string) (fs fs' : FS) :
  crypto_utils.encrypt_file derive_fernet_key fernet_encrypt salt entropy path password fs
  = (inr out, fs') →
  out = path +:+ ".enc"
  ∧ ∃ data, files fs !! path = Some data
      ∧ fs' = write_file out
                (salt ++ fernet_encrypt (derive_fernet_key password salt) entropy data) fs.
Proof.
  unfold crypto_utils.encrypt_file.
  destruct (files fs !! path) as [data|] eqn:Ed; [|done].
  destruct (isdir _ fs); [done|]. intros [= <- <-]. split; [done|]. by exists data.
Qed.

Lemma path_neq_enc (path : string) : path +:+ ".enc" ≠ path.
Proof.
  intros Heq. apply (f_equal String.length) in Heq. rewrite str_length_app in Heq.
  simpl in Heq. lia.
Qed.

(** X12. [encrypt_file] leaves the plaintext in place: after it the file at
    [path] has the content it had, the artifact [path.enc] is the salt
    followed by the token, and no other file changed.  So [decrypt_file] on
    the artifact, even with the right password, refuses to run while the
    original is there: it ends with the output-exists error and writes
    nothing. *)
Theorem encrypt_keeps_plaintext (salt entropy : bytes) (path password out : string)
  (fs fs' : FS) :
  (∀ key r data, fernet_decrypt key (fernet_encrypt key r data) = Some data) →
  (∀ key r data, fernet_encrypt key r data ≠ []) →
  List.length salt = crypto_utils.SALT_SIZE →
  crypto_utils.encrypt_file derive_fernet_key fernet_encrypt salt entropy path password fs
  = (inr out, fs') →
  ∃ data,
    files fs !! path = Some data
    ∧ files fs' !! path = Some data
    ∧ files fs' = <[path +:+ ".enc" :=
                     salt ++ fernet_encrypt (derive_fernet_key password salt) entropy data]>
                  (files fs)
    ∧ crypto_utils.decrypt_file derive_fernet_key fernet_decrypt out password fs'
      = (inl (crypto_utils.OutputExists path), fs').
Proof.
  intros Hfernet Hne Hsalt Henc.
  apply encrypt_file_inr in Henc as (-> & data & Hd & ->).
  exists data. split; [done|].
  assert (Hkeep : files (write_file (path +:+ ".enc")
      (salt ++ fernet_encrypt (derive_fernet_key password salt) entropy data) fs) !! path
      = Some data).
  { simpl. rewrite lookup_insert_ne; [done | apply path_neq_enc]. }
  split; [exact Hkeep|]. split; [done|].
  unfold crypto_utils.decrypt_file. simpl files at 1. rewrite lookup_insert_eq.
  rewrite length_app, Hsalt.
  destruct (Nat.leb_spec (crypto_utils.SALT_SIZE + List.length
              (fernet_encrypt (derive_fernet_key password salt) entropy data))
              crypto_utils.SALT_SIZE) as [Hle|Hgt].
  { specialize (Hne (derive_fernet_key password salt) entropy data).
    destruct (fernet_encrypt _ _ _); [done|].
    unfold crypto_utils.SALT_SIZE in Hle. simpl in Hle. lia. }
  rewrite <- Hsalt at 1 2. rewrite take_app_length, drop_app_length, Hfernet.
  rewrite out_path_of_enc.
  assert (path_exists path (write_file (path +:+ ".enc")
      (salt ++ fernet_encrypt (derive_fernet_key password salt) entropy data) fs) = true) as ->;
    [|done].
  unfold path_exists. assert (isfile path _ = true) as ->; [|done].
  apply isfile_true. by rewrite Hkeep.
Qed.

(** X13. The round trip.  Where the artifact written by [encrypt_file] is
    found in a file system in which the original path is free, [decrypt_file]
    with the same password writes the original bytes back at the original
    path. *)
Theorem encrypt_decrypt_round_trip (salt entropy : bytes) (path password out : string)
  (fs fs' fs2 : FS) (data : bytes) :
  (∀ key r d, fernet_decrypt key (fernet_encrypt key r d) = Some d) →
  (∀ key r d, fernet_encrypt key r d ≠ []) →
  List.length salt = crypto_utils.SALT_SIZE →
  files fs !! path = Some data →
  crypto_utils.encrypt_file derive_fernet_key fernet_encrypt salt entropy path password fs
  = (inr out, fs') →
  files fs2 !! out = files fs' !! out →
  path_exists path fs2 = false →
  path ≠ "" →
  crypto_utils.decrypt_file derive_fernet_key fernet_decrypt out password fs2
  = (inr path, write_file path data fs2).
Proof.
  intros Hfernet Hne Hsalt Hdata Henc Hsame Hfree Hpath.
  apply encrypt_file_inr in Henc as (-> & data' & Hd & ->).
  rewrite Hdata in Hd. injection Hd as <-.
  simpl in Hsame. rewrite lookup_insert_eq in Hsame.
  unfold crypto_utils.decrypt_file. rewrite Hsame.
  rewrite length_app, Hsalt.
  destruct (Nat.leb_spec (crypto_utils.SALT_SIZE + List.length
              (fernet_encrypt (derive_fernet_key password salt) entropy data))
              crypto_utils.SALT_SIZE) as [Hle|Hgt].
  { specialize (Hne (derive_fernet_key password salt) entropy data).
    destruct (fernet_encrypt _ _ _); [done|].
    unfold crypto_utils.SALT_SIZE in Hle. simpl in Hle. lia. }
  rewrite <- Hsalt at 1 2. rewrite take_app_length, drop_app_length, Hfernet.
  rewrite out_path_of_enc, Hfree. apply truthy_true in Hpath. by rewrite Hpath.
Qed.

(** X14. The decryptor window works in place.  After [encrypt_file], a
    click on "Decrypt" with the artifact selected and the same, non-empty
    password replaces the content of the artifact with the original bytes,
    under the name of the artifact, and changes nothing else.  It never
    accepts an empty password, so an artifact made with the empty password
    cannot be opened with it.  Whenever it stops before the [try] block
    (no such file, no password, confirmation refused) the file system is as
    it was, and so it is when Fernet rejects the token, which happens
    before the file is opened for writing. *)
Theorem decrypt_action_in_place (salt entropy : bytes) (path password out : string)
  (fs fs' : FS) (data : bytes) :
  (∀ key r d, fernet_decrypt key (fernet_encrypt key r d) = Some d) →
  List.length salt = crypto_utils.SALT_SIZE →
  files fs !! path = Some data →
  crypto_utils.encrypt_file derive_fernet_key fernet_encrypt salt entropy path password fs
  = (inr out, fs') →
  (password ≠ "" →
     decrypt_gui.decrypt_action derive_fernet_key fernet_decrypt out password true fs'
     = (write_file out data fs', decrypt_gui.DecryptedMessage))
  ∧ (password = "" →
     decrypt_gui.decrypt_action derive_fernet_key fernet_decrypt out password true fs'
     = (fs', decrypt_gui.NoPassword))
  ∧ (∀ p pw ok fs0,
       (decrypt_gui.decrypt_action derive_fernet_key fernet_decrypt p pw ok fs0).2
       ∈ [decrypt_gui.InvalidFile; decrypt_gui.NoPassword; decrypt_gui.Cancelled] →
       (decrypt_gui.decrypt_action derive_fernet_key fernet_decrypt p pw ok fs0).1 = fs0)
  ∧ (∀ p pw fs0 content,
       files fs0 !! p = Some content → pw ≠ "" →
       fernet_decrypt (derive_fernet_key pw (List.firstn crypto_utils.SALT_SIZE content))
         (List.skipn crypto_utils.SALT_SIZE content) = None →
       decrypt_gui.decrypt_action derive_fernet_key fernet_decrypt p pw true fs0
       = (fs0, decrypt_gui.DecryptionFailed)).
Proof.
  intros Hfernet Hsalt Hdata Henc.
  apply encrypt_file_inr in Henc as (-> & data' & Hd & ->).
  rewrite Hdata in Hd. injection Hd as <-.
  assert (Hfile : isfile (path +:+ ".enc") (write_file (path +:+ ".enc")
      (salt ++ fernet_encrypt (derive_fernet_key password salt) entropy data) fs) = true).
  { apply isfile_true. simpl. by rewrite lookup_insert_eq. }
  split; [|split; [|split]].
  - intros Hpw. unfold decrypt_gui.decrypt_action. rewrite Hfile.
    apply truthy_true in Hpw. rewrite Hpw. simpl negb. cbv iota.
    simpl files at 1. rewrite lookup_insert_eq.
    rewrite <- Hsalt at 1 2. by rewrite take_app_length, drop_app_length, Hfernet.
  - intros ->. unfold decrypt_gui.decrypt_action. by rewrite Hfile.
  - intros p pw ok fs0. unfold decrypt_gui.decrypt_action.
    repeat case_match; simpl; try done;
      intros Hin; repeat (apply elem_of_cons in Hin as [Hin|Hin]; [discriminate Hin|]);
      by apply elem_of_nil in Hin.
  - intros p pw fs0 content Hp Hpw Hrej. unfold decrypt_gui.decrypt_action.
    assert (Hf : isfile p fs0 = true) by (apply isfile_true; by rewrite Hp).
    rewrite Hf. apply truthy_true in Hpw. rewrite Hpw. simpl. by rewrite Hp, Hrej.
Qed.

End CryptoFacts.

(** ** The sweep and the refresh *)

Section SweepMore.
Context `{!os_path.OsPath} `{!Config}.

Lemma snapshot_file_frame (root fname : string) (st st' : FS * list string) :
  snapshot_file TARGET_DIRECTORY root fname st = inr st' →
  entry_slot (root, fname) ∉ dirs st'.1 →
  dirs st.1 ⊆ dirs st'.1
  ∧ (st' = st
     ∨ taken (root, fname)
       ∧ (∀ p, p ≠ entry_slot (root, fname) → files st'.1 !! p = files st.1 !! p)
       ∧ (st'.2 = st.2 ∨ st'.2 = st.2 ++ [entry_src (root, fname)])).
Proof.
  unfold snapshot_file, taken, entry_slot, snapshot_path_for, entry_src. simpl.
  destruct (os_path.relpath (os_path.join root fname) TARGET_DIRECTORY) as [rel|]; [|done].
  destruct (take_file fname _) eqn:Et; simpl; [|intros [= <-] _; split; [done | by left]].
  destruct (makedirs _ st.1) as [e|fs1] eqn:E1; [done|].
  apply makedirs_inr in E1 as [F1 D1].
  destruct (copy2 _ _ fs1) as [e|fs2] eqn:E2; intros [= <-] Hd; simpl in *.
  - split; [rewrite D1; apply union_subseteq_r|]. right. split; [by exists rel|].
    split; [intros p _; by rewrite F1 | by right].
  - pose proof (copy2_dirs _ _ _ _ E2) as D2.
    apply copy2_inr in E2 as (c & _ & _ & F2 & _); [|by rewrite <- D2].
    split; [rewrite D2, D1; apply union_subseteq_r|]. right. split; [by exists rel|].
    split; [|by left]. intros p Hp. by rewrite F2, lookup_insert_ne, F1.
Qed.

Lemma sweep_frame (entries : list (string * string)) :
  ∀ st st' : FS * list string,
    sweep TARGET_DIRECTORY entries st = inr st' →
    (∀ e, e ∈ entries → entry_slot e ∉ dirs st'.1) →
    dirs st.1 ⊆ dirs st'.1
    ∧ (∀ p, (∀ e, e ∈ entries → taken e → entry_slot e ≠ p) →
            files st'.1 !! p = files st.1 !! p)
    ∧ ∃ w, st'.2 = st.2 ++ w
           ∧ Forall (λ x, ∃ e, e ∈ entries ∧ taken e ∧ x = entry_src e) w.
Proof.
  induction entries as [|[root fname] rest IH]; intros st st' Hs Hdir.
  - simpl in Hs. injection Hs as <-. split; [done|]. split; [done|].
    exists []. by rewrite app_nil_r.
  - simpl in Hs.
    destruct (snapshot_file TARGET_DIRECTORY root fname st) as [err|st1] eqn:E1; [done|].
    destruct (IH st1 st' Hs) as (Hd_rest & Hframe & w & Hw & Hall).
    { intros e He. apply Hdir. by apply list_elem_of_further. }
    assert (Hw_rest : Forall (λ x, ∃ e, e ∈ (root, fname) :: rest ∧ taken e ∧ x = entry_src e) w).
    { eapply Forall_impl; [exact Hall|]. simpl. intros x (e & He & Ht & ->).
      exists e. split; [by apply list_elem_of_further | done]. }
    apply snapshot_file_frame in E1 as (Hd1 & Hcase).
    2:{ intros Hin. apply (Hdir (root, fname)); [apply list_elem_of_here|]. by apply Hd_rest. }
    split; [by etrans|].
    destruct Hcase as [->|(Htaken & Hstep & Hwarn)].
    + split.
      * intros p Hp. apply Hframe. intros e He. apply Hp. by apply list_elem_of_further.
      * by exists w.
    + split.
      * intros p Hp. rewrite Hframe.
        -- apply Hstep. intros Heq. by apply (Hp (root, fname) (list_elem_of_here _ _) Htaken).
        -- intros e He. apply Hp. by apply list_elem_of_further.
      * destruct Hwarn as [Hsame|Hadd].
        -- exists w. by rewrite Hw, Hsame.
        -- exists (entry_src (root, fname) :: w). rewrite Hw, Hadd, <- app_assoc.
           split; [done|]. constructor; [|done].
           exists (root, fname). split; [apply list_elem_of_here | done].
Qed.

Lemma create_initial_snapshot_files (walk : list (string * list string)) (fs fs' : FS)
  (warnings : list string) (p : string) :
  create_initial_snapshot TARGET_DIRECTORY walk fs = inr (fs', warnings) →
  (∀ e, e ∈ walk_entries walk → entry_slot e ∉ dirs fs') →
  (∀ e, e ∈ walk_entries walk → taken e → entry_slot e ≠ p) →
  files fs' !! p = files fs !! p.
Proof.
  intros Hc Hdir Hp. unfold create_initial_snapshot in Hc.
  destruct (negb (isdir TARGET_DIRECTORY fs)); [done|].
  destruct (sweep_frame _ _ _ Hc Hdir) as (_ & Hframe & _). by apply Hframe.
Qed.

(** X15. The sweep writes nothing but the slots of the files it takes:
    after [create_initial_snapshot] has completed, a path that is not the
    slot of a file of the walk passing the scope test has the content it
    had, so a file out of the scope gets no snapshot and, the slots being
    apart from the tree, no live file is changed; and every warning is
    about a file that passed the test (no slot being a directory). *)
Theorem sweep_writes_only_taken_slots (walk : list (string * list string)) (fs fs' : FS)
  (warnings : list string) :
  create_initial_snapshot TARGET_DIRECTORY walk fs = inr (fs', warnings) →
  (∀ e, e ∈ walk_entries walk → entry_slot e ∉ dirs fs') →
  (∀ p, (∀ e, e ∈ walk_entries walk → taken e → entry_slot e ≠ p) →
        files fs' !! p = files fs !! p)
  ∧ Forall (λ x, ∃ e, e ∈ walk_entries walk ∧ taken e ∧ x = entry_src e) warnings
  ∧ dirs fs ⊆ dirs fs'.
Proof.
  intros Hc Hdir. unfold create_initial_snapshot in Hc.
  destruct (negb (isdir TARGET_DIRECTORY fs)); [done|].
  destruct (sweep_frame _ _ _ Hc Hdir) as (Hd & Hframe & w & Hw & Hall).
  simpl in *. subst w. done.
Qed.

Lemma rmtree_inr (d : string) (fs fs' : FS) :
  rmtree d fs = inr fs' →
  (∀ p, inside d p = true → files fs' !! p = None)
  ∧ (∀ p, inside d p = false → files fs' !! p = files fs !! p)
  ∧ dirs fs' ⊆ dirs fs.
Proof.
  unfold rmtree. destruct (isdir d fs); [|destruct (isfile d fs); done].
  intros [= <-]. simpl. split; [|split].
  - intros p Hp. apply map_lookup_filter_None. right. intros x _. simpl. congruence.
  - intros p Hp. destruct (files fs !! p) as [x|] eqn:E.
    + by apply map_lookup_filter_Some.
    + apply map_lookup_filter_None. by left.
  - intros p Hp. by apply elem_of_filter in Hp as [_ Hp].
Qed.

(** X16. Refreshing the snapshot.  Declined, it does nothing.  Carried
    out, with [SNAPSHOT_DIR] a directory, it drops every stale snapshot: a
    file below [SNAPSHOT_DIR] that is not the slot of a file taken by the
    new sweep is gone, and a file elsewhere that is no such slot is as it
    was.  In no case does it touch the queue, the history, the window, the
    selection or the audit file. *)
Theorem refresh_drops_stale_snapshots (yes : bool) (walk : list (string * list string))
  (s s' : State) (warnings : list string) :
  SNAPSHOT_DIR ∈ dirs (disk s) →
  refresh_snapshot true walk s = (s', Refreshed warnings) →
  (∀ e, e ∈ walk_entries walk → entry_slot e ∉ dirs (disk s')) →
  (∀ p, inside SNAPSHOT_DIR p = true →
        (∀ e, e ∈ walk_entries walk → taken e → entry_slot e ≠ p) →
        files (disk s') !! p = None)
  ∧ (∀ p, inside SNAPSHOT_DIR p = false →
          (∀ e, e ∈ walk_entries walk → taken e → entry_slot e ≠ p) →
          files (disk s') !! p = files (disk s) !! p)
  ∧ refresh_snapshot false walk s = (s, Declined)
  ∧ loop_part (refresh_snapshot yes walk s).1 = loop_part s
  ∧ selected_index (refresh_snapshot yes walk s).1 = selected_index s
  ∧ audit (refresh_snapshot yes walk s).1 = audit s.
Proof.
  intros Hsnap Hres Hdir.
  assert (Hframe : loop_part (refresh_snapshot yes walk s).1 = loop_part s
                   ∧ selected_index (refresh_snapshot yes walk s).1 = selected_index s
                   ∧ audit (refresh_snapshot yes walk s).1 = audit s)
    by apply refresh_snapshot_frame.
  unfold refresh_snapshot in Hres. simpl in Hres.
  assert (path_exists SNAPSHOT_DIR (disk s) = true) as Hex.
  { unfold path_exists, isdir. rewrite (bool_decide_eq_true_2 _ Hsnap). apply orb_true_r. }
  rewrite Hex in Hres.
  destruct (rmtree SNAPSHOT_DIR (disk s)) as [e|fs1] eqn:E1; [done|].
  destruct (makedirs SNAPSHOT_DIR fs1) as [e|fs2] eqn:E2; [done|].
  destruct (create_initial_snapshot TARGET_DIRECTORY walk fs2) as [[[] ?]|[fs3 w]] eqn:E3;
    try done. injection Hres as <- <-. simpl in Hdir. simpl.
  apply rmtree_inr in E1 as (Hin & Hout & _). apply makedirs_inr in E2 as [F2 _].
  pose proof (λ p, create_initial_snapshot_files _ _ _ _ p E3 Hdir) as Hsweep.
  split; [|split; [|done]].
  - intros p Hp Hslot. rewrite (Hsweep p Hslot), F2. by apply Hin.
  - intros p Hp Hslot. rewrite (Hsweep p Hslot), F2. by apply Hout.
Qed.

End SweepMore.

(** ** The alert dialog *)

Section AlertDialog.
Context `{!os_path.OsPath} `{!Config}.

Lemma idx_to_select_Some (paths : list string) (evs : list Item) (start idx : nat) :
  idx_to_select paths evs start = Some idx →
  ∃ k ev, idx = (start + k)%nat ∧ evs !! k = Some ev
    ∧ (src_path ev ∈ paths ∨ dest_path ev ∈ paths)
    ∧ ∀ j ev', (j < k)%nat → evs !! j = Some ev' →
        (src_path ev' ∉ paths) ∧ (dest_path ev' ∉ paths).
Proof.
  revert start. induction evs as [|ev rest IH]; intros start; simpl; [done|].
  destruct (bool_decide (src_path ev ∈ paths)) eqn:Es;
    [|destruct (bool_decide (dest_path ev ∈ paths)) eqn:Ed]; simpl.
  - intros [= <-]. exists 0%nat, ev. apply bool_decide_eq_true in Es.
    split; [lia|]. split; [done|]. split; [by left|]. intros; lia.
  - intros [= <-]. exists 0%nat, ev. apply bool_decide_eq_true in Ed.
    split; [lia|]. split; [done|]. split; [by right|]. intros; lia.
  - intros Hi. apply IH in Hi as (k & ev0 & -> & Hk & Hm & Hfirst).
    exists (S k), ev0. split; [lia|]. split; [done|]. split; [done|].
    intros [|j] ev' Hj Hev'; simpl in Hev'.
    + injection Hev' as <-. apply bool_decide_eq_false in Es, Ed. done.
    + apply (Hfirst j); [lia | done].
Qed.

Lemma idx_to_select_None (paths : list string) (evs : list Item) (start : nat) :
  idx_to_select paths evs start = None →
  Forall (λ ev, (src_path ev ∉ paths) ∧ (dest_path ev ∉ paths)) evs.
Proof.
  revert start. induction evs as [|ev rest IH]; intros start; simpl; [by constructor|].
  destruct (bool_decide (src_path ev ∈ paths)) eqn:Es;
    [|destruct (bool_decide (dest_path ev ∈ paths)) eqn:Ed]; simpl; try done.
  intros Hi. apply bool_decide_eq_false in Es, Ed. constructor; [done | by eapply IH].
Qed.

(** X17. When the user answers the alert with anything but "Yes", one row
    is appended to the audit file, a [user_reported_not_me] row listing the
    paths of the alert and their number; the file system, the queue, the
    history and the window stay as they were; and the newest event of the
    history whose source or destination is one of the paths becomes the
    selection, which is left alone when there is none. *)
Theorem alert_not_me_selects_newest (now : datetime) (paths : list string) (s : State) :
  let s' := _show_spike_alert now false paths s in
  audit s' = audit s ++ [ {| timestamp_iso := isoformat now;
                             event_type := "user_reported_not_me";
                             event_path := pystr.join ";" paths;
                             action_taken := "alert_shown";
                             note := "count=" +:+ pretty (List.length paths) |} ]
  ∧ disk s' = disk s
  ∧ loop_part s' = loop_part s
  ∧ (∀ k ev, events s !! k = Some ev →
       src_path ev ∈ paths ∨ dest_path ev ∈ paths →
       (∀ j ev', (j < k)%nat → events s !! j = Some ev' →
          (src_path ev' ∉ paths) ∧ (dest_path ev' ∉ paths)) →
       selected_index s' = Some k)
  ∧ (Forall (λ ev, (src_path ev ∉ paths) ∧ (dest_path ev ∉ paths)) (events s) →
       selected_index s' = selected_index s).
Proof.
  intros s'. subst s'. unfold _show_spike_alert. simpl.
  destruct (idx_to_select paths (events s) 0) as [idx|] eqn:Ei.
  - apply idx_to_select_Some in Ei as (k & ev & -> & Hk & Hm & Hfirst). simpl.
    unfold on_select. simpl. rewrite Hk. simpl. unfold csv_log.
    split; [done|]. split; [done|]. split; [done|]. split.
    + intros k' ev' Hk' Hm' Hfirst'. f_equal.
      destruct (Nat.lt_trichotomy k k') as [Hlt|[->|Hgt]]; [|done|].
      * destruct (Hfirst' k ev Hlt Hk). tauto.
      * destruct (Hfirst k' ev' Hgt Hk'). tauto.
    + intros Hall. rewrite Forall_lookup in Hall. destruct (Hall k ev Hk). tauto.
  - apply idx_to_select_None in Ei. simpl. unfold csv_log.
    split; [done|]. split; [done|]. split; [done|]. split; [|done].
    intros k ev Hk Hm _. rewrite Forall_lookup in Ei. destruct (Ei k ev Hk). tauto.
Qed.

Lemma confirm_paths_skip (now : datetime) (paths : list string) (s : State) :
  Forall (λ p, isfile p (disk s) = false) paths →
  List.fold_left (confirm_path now) paths s = s.
Proof.
  induction 1 as [|p rest Hp _ IH]; simpl; [done|].
  unfold confirm_path at 2. by rewrite Hp.
Qed.

(** X18. When the user answers the alert with "Yes", every row written is a
    [snapshot_updated] row about one of the paths of the alert, there are
    no more rows than paths, and the queue, the history, the window and the
    selection stay as they were; when none of the paths is a regular file
    any more, nothing changes at all. *)
Theorem alert_confirmed_updates_snapshots (now : datetime) (paths : list string) (s : State) :
  let s' := _show_spike_alert now true paths s in
  (∃ rows, audit s' = audit s ++ rows
     ∧ (List.length rows ≤ List.length paths)%nat
     ∧ Forall (λ r, action_taken r = "snapshot_updated" ∧ event_path r ∈ paths) rows)
  ∧ loop_part s' = loop_part s
  ∧ selected_index s' = selected_index s
  ∧ (Forall (λ p, isfile p (disk s) = false) paths → s' = s).
Proof.
  intros s'. subst s'. unfold _show_spike_alert.
  split; [apply confirm_paths_audit|].
  destruct (confirm_paths_frame now paths s) as [Hf Hsel].
  split; [exact Hf|]. split; [exact Hsel | apply confirm_paths_skip].
Qed.

End AlertDialog.

(** ** The audit file and its header *)

Lemma csv_log_file_existing (rows : list Row) (lines : list (list string)) :
  List.fold_left csv_log_file rows (Some lines)
  = Some (lines ++ List.map row_fields rows).
Proof.
  revert lines. induction rows as [|r rest IH]; intros lines; simpl.
  - by rewrite app_nil_r.
  - rewrite IH. by rewrite <- app_assoc.
Qed.

(** X19. The header of the audit file is written once, by the first
    [csv_log] on a file that does not exist: after any rows have been
    logged the file is the header followed by the rows in order, and no
    header is ever added to a file that exists already, were it empty. *)
Theorem csv_header_written_once (r : Row) (rows : list Row) (lines : list (list string)) :
  List.fold_left csv_log_file (r :: rows) None
  = Some (CSV_FIELDS :: List.map row_fields (r :: rows))
  ∧ List.fold_left csv_log_file rows (Some lines) = Some (lines ++ List.map row_fields rows)
  ∧ List.fold_left csv_log_file rows (Some []) = Some (List.map row_fields rows)
  ∧ List.map row_fields (List.fold_left (λ log row, csv_log row log) rows [])
    = List.map row_fields rows.
Proof.
  split; [|split; [|split]].
  - simpl. by rewrite csv_log_file_existing.
  - apply csv_log_file_existing.
  - by rewrite csv_log_file_existing.
  - f_equal. assert (∀ log, List.fold_left (λ log row, csv_log row log) rows log = log ++ rows) as ->;
      [|done].
    induction rows as [|x rest IH]; intros log; simpl; [by rewrite app_nil_r|].
    rewrite IH. unfold csv_log. by rewrite <- app_assoc.
Qed.

(** ** The order of the paths of an alert *)

Section AlertOrder.
Context `{!Config}.

Lemma fromkeys_from_order (seen l : list string) (i j : nat) (p q : string) :
  fromkeys_from seen l !! i = Some p →
  fromkeys_from seen l !! j = Some q →
  (i < j)%nat →
  ∃ k, l !! k = Some p ∧ ∀ k', l !! k' = Some q → (k < k')%nat.
Proof.
  revert seen i j. induction l as [|y rest IH]; intros seen i j; simpl; [done|].
  destruct (bool_decide (y ∈ seen)) eqn:E.
  - apply bool_decide_eq_true in E. intros Hp Hq Hij.
    destruct (IH seen i j Hp Hq Hij) as (k & Hk & Hfirst).
    exists (S k). split; [done|]. intros [|k'] Hk'; simpl in Hk'; [|apply Hfirst in Hk'; lia].
    injection Hk' as ->. apply list_elem_of_lookup_2 in Hq.
    apply (proj2 (fromkeys_from_spec seen rest)) in Hq as [_ Hq]. done.
  - intros Hp Hq Hij. destruct j as [|j]; [lia|]. simpl in Hq.
    assert (q ≠ y) as Hqy.
    { apply list_elem_of_lookup_2 in Hq.
      apply (proj2 (fromkeys_from_spec (y :: seen) rest)) in Hq as [_ Hq].
      intros ->. apply Hq, list_elem_of_here. }
    destruct i as [|i]; simpl in Hp.
    + injection Hp as ->. exists 0%nat. split; [done|].
      intros [|k'] Hk'; simpl in Hk'; [congruence | lia].
    + destruct (IH (y :: seen) i j Hp Hq ltac:(lia)) as (k & Hk & Hfirst).
      exists (S k). split; [done|].
      intros [|k'] Hk'; simpl in Hk'; [congruence | apply Hfirst in Hk'; lia].
Qed.

(** X20. The paths of an alert are listed in the order of their first
    modification.  When [_maybe_trigger_spike] fires, the payload it
    schedules lists every path that has an entry of the deque inside the
    window, each once, and a path listed before another has an entry in
    the window that precedes every entry of the other: a file modified
    again later does not move in the list. *)
Theorem alert_paths_in_first_modification_order (t_count now_ts t_collect : Z)
  (dq : list (Z * string)) (last ts : Z) (paths : list string) :
  _maybe_trigger_spike t_count now_ts t_collect dq last = (ts, Some paths) →
  let recent := List.filter (in_window t_collect) dq in
  NoDup paths
  ∧ (∀ p, p ∈ paths ↔ ∃ t, (t, p) ∈ recent)
  ∧ (∀ i j p q, paths !! i = Some p → paths !! j = Some q → (i < j)%nat →
       ∃ k t, recent !! k = Some (t, p)
              ∧ ∀ k' t', recent !! k' = Some (t', q) → (k < k')%nat).
Proof.
  intros Hfire recent. unfold _maybe_trigger_spike in Hfire.
  destruct (_ && _); [|done]. injection Hfire as _ <-.
  unfold _collect_recent_paths. fold recent.
  destruct (fromkeys_spec (List.map snd recent)) as [Hnd Hin].
  split; [exact Hnd|]. split.
  - intros p. rewrite Hin, list_elem_of_fmap. split.
    + intros ([t p'] & -> & He). by exists t.
    + intros (t & He). by exists (t, p).
  - intros i j p q Hp Hq Hij.
    destruct (fromkeys_from_order [] _ i j p q Hp Hq Hij) as (k & Hk & Hfirst).
    rewrite list_lookup_fmap in Hk.
    destruct (recent !! k) as [[t p']|] eqn:Ek; simpl in Hk; [|done].
    injection Hk as ->. exists k, t. split; [done|].
    intros k' t' Hk'. apply Hfirst. change (list_fmap _ _ snd recent) with (snd <$> recent).
    by rewrite list_lookup_fmap, Hk'.
Qed.

End AlertOrder.

(** ** The command line filter *)

Section ParseFiles.
Context `{!os_path.OsPath}.

(** The tokens of [--files]: the pieces between commas, stripped, the empty
    ones dropped. *)
Lemma parse_token_fold (raw : list string) (acc : gset string * gset string) :
  let t tok := pystr.replace pystr.backslash "/"%char tok in
  let r := List.fold_left parse_token raw acc in
  (∀ x, x ∈ r.1 ↔ x ∈ acc.1
        ∨ ∃ tok, tok ∈ raw ∧ pystr.contains "/"%char (t tok) = false
                 ∧ x = pystr.lower (t tok))
  ∧ (∀ x, x ∈ r.2 ↔ x ∈ acc.2
        ∨ ∃ tok, tok ∈ raw ∧ pystr.contains "/"%char (t tok) = true
                 ∧ x = os_path.normcase (os_path.normpath (t tok))).
Proof.
  intros t. revert acc. induction raw as [|tok rest IH]; intros acc; cbn [List.fold_left].
  - split; intros x; (split; [by left|]); intros [?|(tok & Hin & _)]; try done;
      by apply elem_of_nil in Hin.
  - destruct (IH (parse_token acc tok)) as [IH1 IH2].
    split; intros x.
    + rewrite IH1. unfold parse_token. fold (t tok).
      destruct (pystr.contains "/"%char (t tok)) eqn:Ec; simpl.
      * split.
        -- intros [?|(tok' & Hin & Hc & ->)]; [by left|]. right. exists tok'.
           split; [by apply list_elem_of_further | done].
        -- intros [?|(tok' & Hin & Hc & ->)]; [by left|].
           apply elem_of_cons in Hin as [->|Hin]; [congruence|].
           right. by exists tok'.
      * rewrite elem_of_union, elem_of_singleton. split.
        -- intros [[->|?]|(tok' & Hin & Hc & ->)].
           ++ right. exists tok. split; [apply list_elem_of_here | done].
           ++ by left.
           ++ right. exists tok'. split; [by apply list_elem_of_further | done].
        -- intros [?|(tok' & Hin & Hc & ->)]; [left; by right|].
           apply elem_of_cons in Hin as [->|Hin]; [left; by left|].
           right. by exists tok'.
    + rewrite IH2. unfold parse_token. fold (t tok).
      destruct (pystr.contains "/"%char (t tok)) eqn:Ec; simpl.
      * rewrite elem_of_union, elem_of_singleton. split.
        -- intros [[->|?]|(tok' & Hin & Hc & ->)].
           ++ right. exists tok. split; [apply list_elem_of_here | done].
           ++ by left.
           ++ right. exists tok'. split; [by apply list_elem_of_further | done].
        -- intros [?|(tok' & Hin & Hc & ->)]; [left; by right|].
           apply elem_of_cons in Hin as [->|Hin]; [left; by left|].
           right. by exists tok'.
      * split.
        -- intros [?|(tok' & Hin & Hc & ->)]; [by left|]. right. exists tok'.
           split; [by apply list_elem_of_further | done].
        -- intros [?|(tok' & Hin & Hc & ->)]; [by left|].
           apply elem_of_cons in Hin as [->|Hin]; [congruence|].
           right. by exists tok'.
Qed.

(** X21. What [--files] builds.  The two sets are both absent or both
    present; they are absent exactly when the argument is empty or blank.
    Otherwise, the tokens being the stripped non-empty pieces between
    commas with every backslash turned into a slash, the base names are
    exactly the lower-cased tokens without a slash and the relative paths
    exactly the normalised tokens with one. *)
Theorem parse_files_sets (files_arg : string) :
  let blank := negb (pystr.truthy files_arg && pystr.truthy (pystr.strip files_arg)) in
  let raw := List.filter pystr.truthy (List.map pystr.strip (pystr.split ","%char files_arg)) in
  let t tok := pystr.replace pystr.backslash "/"%char tok in
  (blank = true → parse_files files_arg = (None, None))
  ∧ (blank = false → ∃ B R, parse_files files_arg = (Some B, Some R)
       ∧ (∀ x, x ∈ B ↔ ∃ tok, tok ∈ raw ∧ pystr.contains "/"%char (t tok) = false
                              ∧ x = pystr.lower (t tok))
       ∧ (∀ x, x ∈ R ↔ ∃ tok, tok ∈ raw ∧ pystr.contains "/"%char (t tok) = true
                              ∧ x = os_path.normcase (os_path.normpath (t tok)))).
Proof.
  intros blank raw t. subst blank. unfold parse_files. fold raw.
  destruct (pystr.truthy files_arg && pystr.truthy (pystr.strip files_arg)); simpl.
  - split; [done|]. intros _. eexists _, _. split; [reflexivity|].
    destruct (parse_token_fold raw (∅, ∅)) as [H1 H2]. simpl in H1, H2.
    split; intros x.
    + rewrite H1. split; [intros [Hx|?]; [by apply not_elem_of_empty in Hx | done] | by right].
    + rewrite H2. split; [intros [Hx|?]; [by apply not_elem_of_empty in Hx | done] | by right].
  - split; [done|]. done.
Qed.

End ParseFiles.

(** ** Moved files *)

Section Moved.
Context `{!os_path.OsPath} `{!Config}.

(** X22. A move is judged by where the file came from.  For a moved event
    with a source path, the handler files one entry, with both paths made
    absolute, exactly when the source is in scope; the destination plays no
    part, so a file moved into the scope from outside is not recorded and a
    file moved out of it is. *)
Theorem moved_event_judged_by_source (now : datetime) (e : FileSystemEvent) (q : list Item) :
  kind e = EvMoved → event_src_path e ≠ "" →
  dispatch now e q
  = if _is_monitored_path (os_path.abspath (event_src_path e))
    then q ++ [ {| ev_time := isoformat now;
                   ev_type := "moved";
                   src_path := os_path.abspath (event_src_path e);
                   dest_path := if pystr.truthy (event_dest_path e)
                                then os_path.abspath (event_dest_path e) else "" |} ]
    else q.
Proof.
  intros Hk Hsrc. apply truthy_true in Hsrc.
  unfold dispatch. rewrite Hk. unfold on_moved, _enqueue, check_path_of.
  rewrite Hsrc. simpl. rewrite Hsrc.
  destruct (_is_monitored_path (os_path.abspath (event_src_path e))); simpl; [|done].
  unfold make_item. by rewrite Hsrc.
Qed.

End Moved.

(** ** Where the claims as first stated fail *)

(** C1, without its amendment.  Before any alert [last_alert_ts] is 0, not
    a state of its own: with the clock reading 4 s and a cooldown of 60 s,
    eight modifications inside the window schedule no alert. *)
Lemma spike_alert_discipline_counterexample :
  @_count_mods Example.cfg_all 4
    (@record_all Example.cfg_all (Example.burst_events 0 "a") []) = 8%Z
  ∧ @SPIKE_THRESHOLD Example.cfg_all = 8%Z
  ∧ last_alert_ts (init_state Example.tree []) = 0%Z
  ∧ @_maybe_trigger_spike Example.cfg_all 4 4 4
      (@record_all Example.cfg_all (Example.burst_events 0 "a") [])
      (last_alert_ts (init_state Example.tree []))
    = (0%Z, None)
  ∧ (@spike_run Example.cfg_all (Example.burst 0 "a") [] 0).2 = [].
Proof. vm_compute. done. Qed.

(** C5, without its amendment.  An event recorded at 1000 is pruned by the
    recording at 1006; when the clock then reads 1005 the count is 1,
    though both events are at or after 1005 - 5. *)
Lemma sliding_window_count_counterexample :
  @_count_mods Example.cfg_all 1005 (@record_all Example.cfg_all Scenario.stepped_back []) = 1%Z
  ∧ Z.of_nat (List.length
      (List.filter (λ e, 1005 - @SPIKE_WINDOW_SEC Example.cfg_all <=? e.1)%Z
         Scenario.stepped_back)) = 2%Z.
Proof. vm_compute. done. Qed.



(** C4, without its amendment.  With a directory left under the name of a
    slot, the sweep completes without a warning and the slot holds no
    file.  With the snapshot area inside the monitored tree, the sweep
    first overwrites a file of the tree and then snapshots it: the snapshot
    of [snapshots/a.txt] holds what [a.txt] held, not what the file held
    when the sweep began. *)
Lemma snapshot_round_trip_counterexample :
  (∃ fs', @create_initial_snapshot Example.os Example.cfg_all "/mon" Example.walk
            Scenario.tree_stale_dir = inr (fs', [])
          ∧ @snapshot_path_for Example.os Example.cfg_all "/mon/notes.txt"
            = "/home/user/snapshots/notes.txt"
          ∧ files Scenario.tree_stale_dir !! "/mon/notes.txt" = Some (Example.text "notes")
          ∧ files fs' !! "/home/user/snapshots/notes.txt" = None)
  ∧ (∃ fs', @create_initial_snapshot Example.os Scenario.cfg_inside "/mon" Scenario.walk_inside
              Scenario.tree_inside = inr (fs', [])
            ∧ @snapshot_path_for Example.os Scenario.cfg_inside "/mon/snapshots/a.txt"
              = "/mon/snapshots/snapshots/a.txt"
            ∧ files Scenario.tree_inside !! "/mon/snapshots/a.txt" = Some (Example.text "old")
            ∧ files fs' !! "/mon/snapshots/snapshots/a.txt" = Some (Example.text "new")).
Proof.
  split; eexists; (split; [vm_compute; reflexivity|]); vm_compute; done.
Qed.

(** ** The further properties on concrete inputs *)

Lemma strip_prefix_app (key data : list Byte.byte) :
  Example.strip_prefix key (key ++ data) = Some data.
Proof.
  induction key as [|x key IH]; simpl; [done|].
  by rewrite (Byte.byte_dec_lb eq_refl).
Qed.

Lemma toy_fernet_law (key r d : list Byte.byte) :
  Scenario.toy_decrypt key (Scenario.toy_encrypt key r d) = Some d.
Proof. apply strip_prefix_app. Qed.

Lemma toy_encrypt_nonempty (key r d : list Byte.byte) : Scenario.toy_encrypt key r d ≠ [].
Proof. done. Qed.


Lemma last_alert_ts_never_decreases_witness :
  (last_alert_ts (init_state Example.tree [])
   ≤ last_alert_ts (@run Example.os Example.cfg_all Example.clk (init_state Example.tree [])
                      Example.mass_modification))%Z.
Proof.
  apply (@last_alert_ts_never_decreases Example.os Example.cfg_all Example.clk).
  vm_compute. discriminate.
Defined.

Example pending_state :
  q (Scenario.selected_with_pending Example.tree) = [Scenario.item_notes]
  ∧ events (Scenario.selected_with_pending Example.tree) = [Example.item_a]
  ∧ selected_index (Scenario.selected_with_pending Example.tree) = Some 0%nat.
Proof. vm_compute. done. Qed.


Lemma snapshot_update_spares_live_file_witness :
  files (disk (@mark_ignore Example.os Example.cfg_all Example.later
                 (Example.selected Example.tree_with_snapshot)).1) !! "/mon/a.txt"
  = files Example.tree_with_snapshot !! "/mon/a.txt".
Proof.
  destruct (@snapshot_update_spares_live_file Example.os Example.cfg_all "/mon/a.txt"
              Example.tree_with_snapshot Example.later
              (Example.selected Example.tree_with_snapshot) 0%nat Example.item_a)
    as (_ & _ & H).
  - vm_compute. reflexivity.
  - vm_compute. reflexivity.
  - exact H.
Defined.

Lemma restore_spares_snapshot_witness :
  files (disk (@restore_original Example.os Example.cfg_all Example.later Example.later
                 (Example.selected Example.tree_with_snapshot)).1)
    !! "/home/user/snapshots/a.txt"
  = Some (Example.text "original").
Proof.
  refine (eq_trans (proj1 (@restore_spares_snapshot Example.os Example.cfg_all Example.later
            Example.later (Example.selected Example.tree_with_snapshot) 0%nat Example.item_a
            _ _)) _).
  - vm_compute. reflexivity.
  - vm_compute. reflexivity.
  - vm_compute. reflexivity.
Defined.

(** With a regular file in the place of the directory of the duplicates
    the restore brings the file back, raises, and writes no row. *)
Lemma restore_failure_outcomes_witness :
  ∃ content,
    files Scenario.tree_blocked !! "/home/user/snapshots/docs/a.txt" = Some content
    ∧ files (disk (@restore_original Example.os Example.cfg_all Example.later Example.later
                     (Scenario.selected_doc Scenario.tree_blocked)).1)
      = <["/mon/docs/a.txt" := content]> (files Scenario.tree_blocked)
    ∧ audit (@restore_original Example.os Example.cfg_all Example.later Example.later
               (Scenario.selected_doc Scenario.tree_blocked)).1 = [].
Proof.
  destruct (@restore_failure_outcomes Example.os Example.cfg_all Example.later Example.later
              (Scenario.selected_doc Scenario.tree_blocked)
              (@restore_original Example.os Example.cfg_all Example.later Example.later
                 (Scenario.selected_doc Scenario.tree_blocked)).1
              0%nat Scenario.item_doc
              (Raised (OSErr (FileExistsError "/home/user/duplicates/docs"))))
    as (_ & _ & _ & H).
  - vm_compute. reflexivity.
  - vm_compute. reflexivity.
  - vm_compute. reflexivity.
  - destruct (H (OSErr (FileExistsError "/home/user/duplicates/docs")) eq_refl)
      as (content & H1 & H2 & H3).
    + apply (proj1 (bool_decide_eq_false _)). vm_compute. reflexivity.
    + exists content. split; [exact H1 | split; [exact H2 | exact H3]].
Defined.

Lemma ignore_then_restore_witness :
  ∃ content,
    files Example.tree_with_snapshot !! "/mon/a.txt" = Some content
    ∧ files (disk (@restore_original Example.os Example.cfg_all Example.later Example.later
                     (set_disk (write_file "/mon/a.txt" (Example.text "scrambled")
                                  (disk (@mark_ignore Example.os Example.cfg_all Example.now
                                           (Example.selected Example.tree_with_snapshot)).1))
                        (@mark_ignore Example.os Example.cfg_all Example.now
                           (Example.selected Example.tree_with_snapshot)).1)).1)
        !! "/mon/a.txt" = Some content.
Proof.
  destruct (@ignore_then_restore Example.os Example.cfg_all Example.now Example.later
              Example.later (Example.selected Example.tree_with_snapshot)
              (@mark_ignore Example.os Example.cfg_all Example.now
                 (Example.selected Example.tree_with_snapshot)).1
              (@restore_original Example.os Example.cfg_all Example.later Example.later
                 (set_disk (write_file "/mon/a.txt" (Example.text "scrambled")
                              (disk (@mark_ignore Example.os Example.cfg_all Example.now
                                       (Example.selected Example.tree_with_snapshot)).1))
                    (@mark_ignore Example.os Example.cfg_all Example.now
                       (Example.selected Example.tree_with_snapshot)).1)).1
              0%nat Example.item_a "/home/user/snapshots/a.txt"
              "/home/user/duplicates/a.txt.20261103T102105.orig"
              (Example.text "scrambled"))
    as (content & H1 & H2 & _).
  - vm_compute. reflexivity.
  - vm_compute. reflexivity.
  - vm_compute. reflexivity.
  - vm_compute. reflexivity.
  - apply (proj1 (bool_decide_eq_false _)). vm_compute. reflexivity.
  - apply (proj1 (bool_decide_eq_false _)). vm_compute. reflexivity.
  - apply (proj1 (bool_decide_eq_false _)). vm_compute. reflexivity.
  - exists content. split; [exact H1 | exact H2].
Defined.

Lemma decrypt_file_writes_one_new_file_witness :
  "/v/doc.txt" = crypto_utils.out_path_of "/v/doc.txt.enc"
  ∧ "/v/doc.txt" ≠ "/v/doc.txt.enc"
  ∧ path_exists "/v/doc.txt" Example.vault = false.
Proof.
  destruct (@decrypt_file_writes_one_new_file Example.toy_derive Example.toy_decrypt
              "/v/doc.txt.enc" "pw" "/v/doc.txt" Example.vault
              (crypto_utils.decrypt_file Example.toy_derive Example.toy_decrypt
                 "/v/doc.txt.enc" "pw" Example.vault).2)
    as (H1 & H2 & H3 & _).
  - vm_compute. reflexivity.
  - split; [exact H1 | split; [exact H2 | exact H3]].
Defined.

Lemma encrypt_keeps_plaintext_witness :
  ∃ data,
    files Scenario.plain !! "/v/doc.txt" = Some data
    ∧ files Scenario.encrypted !! "/v/doc.txt" = Some data
    ∧ crypto_utils.decrypt_file Example.toy_derive Scenario.toy_decrypt "/v/doc.txt.enc" "pw"
        Scenario.encrypted
      = (inl (crypto_utils.OutputExists "/v/doc.txt"), Scenario.encrypted).
Proof.
  destruct (@encrypt_keeps_plaintext Example.toy_derive Scenario.toy_decrypt
              Scenario.toy_encrypt Scenario.salt [] "/v/doc.txt" "pw" "/v/doc.txt.enc"
              Scenario.plain Scenario.encrypted toy_fernet_law toy_encrypt_nonempty)
    as (data & H1 & H2 & _ & H4).
  - vm_compute. reflexivity.
  - vm_compute. reflexivity.
  - exists data. split; [exact H1 | split; [exact H2 | exact H4]].
Defined.

Lemma encrypt_decrypt_round_trip_witness :
  crypto_utils.decrypt_file Example.toy_derive Scenario.toy_decrypt "/v/doc.txt.enc" "pw"
    Scenario.sealed
  = (inr "/v/doc.txt", write_file "/v/doc.txt" (Example.text "hello") Scenario.sealed).
Proof.
  apply (@encrypt_decrypt_round_trip Example.toy_derive Scenario.toy_decrypt
           Scenario.toy_encrypt Scenario.salt [] "/v/doc.txt" "pw" "/v/doc.txt.enc"
           Scenario.plain Scenario.encrypted Scenario.sealed (Example.text "hello")
           toy_fernet_law toy_encrypt_nonempty).
  - vm_compute. reflexivity.
  - vm_compute. reflexivity.
  - vm_compute. reflexivity.
  - vm_compute. reflexivity.
  - vm_compute. reflexivity.
  - discriminate.
Defined.

Lemma decrypt_action_in_place_witness :
  decrypt_gui.decrypt_action Example.toy_derive Scenario.toy_decrypt "/v/doc.txt.enc" "pw" true
    Scenario.encrypted
  = (write_file "/v/doc.txt.enc" (Example.text "hello") Scenario.encrypted,
     decrypt_gui.DecryptedMessage).
Proof.
  refine (proj1 (@decrypt_action_in_place Example.toy_derive Scenario.toy_decrypt
            Scenario.toy_encrypt Scenario.salt [] "/v/doc.txt" "pw" "/v/doc.txt.enc"
            Scenario.plain Scenario.encrypted (Example.text "hello") toy_fernet_law _ _ _) _).
  - vm_compute. reflexivity.
  - vm_compute. reflexivity.
  - vm_compute. reflexivity.
  - discriminate.
Defined.

(** Under [--files "notes.txt, docs/a.txt"] the file [a.txt] of the root is
    out of the scope: the sweep leaves its slot empty. *)
Lemma sweep_writes_only_taken_slots_witness :
  files Scenario.swept_filtered.1 !! "/home/user/snapshots/a.txt" = None
  ∧ files Scenario.swept_filtered.1 !! "/mon/a.txt" = Some (Example.text "changed").
Proof.
  assert (Hl : @walk_entries Example.walk
               = [("/mon", "a.txt"); ("/mon", "notes.txt"); ("/mon/docs", "a.txt")])
    by reflexivity.
  destruct (@sweep_writes_only_taken_slots Example.os Example.cfg_filtered Example.walk
              Example.tree Scenario.swept_filtered.1 Scenario.swept_filtered.2)
    as (H & _).
  - vm_compute. reflexivity.
  - rewrite Hl. intros e He.
    repeat (apply elem_of_cons in He as [->|He]); try (apply elem_of_nil in He; destruct He);
      apply (proj1 (bool_decide_eq_false _)); vm_compute; reflexivity.
  - split.
    + refine (eq_trans (H "/home/user/snapshots/a.txt" _) _); [|vm_compute; reflexivity].
      rewrite Hl. intros e He.
      repeat (apply elem_of_cons in He as [->|He]); try (apply elem_of_nil in He; destruct He).
      * intros (rel & Hrel & Ht) _. vm_compute in Hrel. injection Hrel as <-.
        vm_compute in Ht. discriminate Ht.
      * intros _ Heq. vm_compute in Heq. discriminate Heq.
      * intros _ Heq. vm_compute in Heq. discriminate Heq.
    + refine (eq_trans (H "/mon/a.txt" _) _); [|vm_compute; reflexivity].
      rewrite Hl. intros e He.
      repeat (apply elem_of_cons in He as [->|He]); try (apply elem_of_nil in He; destruct He);
        intros _ Heq; vm_compute in Heq; discriminate Heq.
Defined.

Lemma refresh_drops_stale_snapshots_witness :
  files (disk (@refresh_snapshot Example.os Example.cfg_all true Example.walk
                 (Example.selected Scenario.tree_stale)).1)
    !! "/home/user/snapshots/old.txt" = None
  ∧ files (disk (Example.selected Scenario.tree_stale)) !! "/home/user/snapshots/old.txt"
    = Some (Example.text "gone").
Proof.
  assert (Hl : @walk_entries Example.walk
               = [("/mon", "a.txt"); ("/mon", "notes.txt"); ("/mon/docs", "a.txt")])
    by reflexivity.
  destruct (@refresh_drops_stale_snapshots Example.os Example.cfg_all true Example.walk
              (Example.selected Scenario.tree_stale)
              (@refresh_snapshot Example.os Example.cfg_all true Example.walk
                 (Example.selected Scenario.tree_stale)).1 [])
    as (H & _).
  - apply (bool_decide_unpack _). vm_compute. exact I.
  - vm_compute. reflexivity.
  - rewrite Hl. intros e He.
    repeat (apply elem_of_cons in He as [->|He]); try (apply elem_of_nil in He; destruct He);
      apply (proj1 (bool_decide_eq_false _)); vm_compute; reflexivity.
  - split; [|vm_compute; reflexivity].
    apply H; [vm_compute; reflexivity|].
    rewrite Hl. intros e He.
    repeat (apply elem_of_cons in He as [->|He]); try (apply elem_of_nil in He; destruct He);
      intros _ Heq; vm_compute in Heq; discriminate Heq.
Defined.

(** A file renamed to [notes.txt] from a name out of the scope is not
    recorded. *)
Lemma moved_event_judged_by_source_witness :
  @dispatch Example.os Example.cfg_filtered Example.now
    (Scenario.moved "/mon/notes.tmp" "/mon/notes.txt") []
  = [].
Proof.
  refine (eq_trans (@moved_event_judged_by_source Example.os Example.cfg_filtered Example.now
            (Scenario.moved "/mon/notes.tmp" "/mon/notes.txt") [] _ _) _).
  - reflexivity.
  - discriminate.
  - vm_compute. reflexivity.
Defined.

Lemma alert_paths_in_first_modification_order_witness :
  NoDup ["/mon/a"; "/mon/b"; "/mon/c"; "/mon/d"]
  ∧ @_maybe_trigger_spike Example.cfg_all (Example.t0 + 4) (Example.t0 + 4) (Example.t0 + 4)
      Scenario.rewrites 0
    = ((Example.t0 + 4)%Z, Some ["/mon/a"; "/mon/b"; "/mon/c"; "/mon/d"]).
Proof.
  assert (H : @_maybe_trigger_spike Example.cfg_all (Example.t0 + 4) (Example.t0 + 4)
                (Example.t0 + 4) Scenario.rewrites 0
              = ((Example.t0 + 4)%Z, Some ["/mon/a"; "/mon/b"; "/mon/c"; "/mon/d"]))
    by (vm_compute; reflexivity).
  split; [|exact H].
  exact (proj1 (@alert_paths_in_first_modification_order Example.cfg_all _ _ _ _ _ _ _ H)).
Defined.

(** The alert of a mass modification, answered with "No": one row, and the
    newest event of the alert selected. *)
Example alert_declined :
  let s1 := @run Example.os Example.cfg_all Example.clk (init_state Example.tree [])
              (Example.mass_modification ++ [ShowSpikeAlert Example.later false]) in
  List.map action_taken (audit s1) = ["alert_shown"]
  ∧ List.map note (audit s1) = ["count=8"]
  ∧ selected_index s1 = Some 0%nat
  ∧ scheduled s1 = [].
Proof. vm_compute. done. Qed.

(** The round trip of the stand-in cipher, run. *)
Example toy_round_trip :
  files Scenario.encrypted !! "/v/doc.txt.enc"
  = Some (Scenario.salt ++ Byte.x80 :: Example.text "pw" ++ Example.text "hello").
Proof. vm_compute. reflexivity. Qed.
